(** * wirepas_backend_client: inventory tracker and MySQL observer

    A shallow embedding of
    - [wirepas_backend_client/management/inventory.py] (class [Inventory]),
    - [wirepas_backend_client/api/mysql/handlers.py] (class [MySQLObserver]),
    followed by the properties established about them.

    Python objects are embedded as follows.
    - [int] is [Z]; a [list] of ints that may also be [None] is
      [option (list Z)].
    - A [set] of addresses is a [gset Z]; the [_index] dict is a
      [gmap Z NodeRecord]; a dict whose iteration order is observed
      (the result of [frequency]) is an association list in insertion order.
    - A call that may raise returns a [result]: [Ok v] or [Raise e].
    - [datetime] values are microseconds since [datetime.min], as [Z]; the
      clock reading [datetime.datetime.utcnow()] is an explicit argument [now].
      Delays and durations are whole seconds, as the command line gives
      them.
      [timedelta.total_seconds()] divides the (integral) microsecond count by
      10^6, which keeps its sign and its being zero, so the comparisons of the
      source against [0] are made on the microsecond count. *)

From stdpp Require Import gmap sorting list.
From Stdlib Require Import ZArith Ascii String DecimalString Lia.
From Stdlib Require DecimalPos DecimalN.

Local Open Scope Z_scope.

(** ** Python basics *)

Module Py.

Inductive Exn : Type :=
  | TypeError
  | KeyError
  | ValueError
  | IndexError
  | AttributeError
  | OverflowError.

Inductive result (A : Type) : Type :=
  | Ok (a : A)
  | Raise (e : Exn).
Arguments Ok {A} a.
Arguments Raise {A} e.

Definition bind {A B : Type} (m : result A) (k : A → result B) : result B :=
  match m with
  | Ok a => k a
  | Raise e => Raise e
  end.

Definition is_ok {A : Type} (m : result A) : bool :=
  match m with Ok _ => true | Raise _ => false end.

(** Truth value of an [int]. *)
Definition truthy_int (z : Z) : bool := negb (z =? 0).

(** Truth value of an object that is [None] or an [int]. *)
Definition truthy_opt_int (o : option Z) : bool :=
  match o with None => false | Some z => truthy_int z end.

(** Truth value of an object that is [None] or a [list]. *)
Definition truthy_list (o : option (list Z)) : bool :=
  match o with None | Some [] => false | Some (_ :: _) => true end.

(** [any(l)]: [None] is not iterable. *)
Definition any (o : option (list Z)) : result bool :=
  match o with
  | None => Raise TypeError
  | Some l => Ok (existsb truthy_int l)
  end.

(** [min(l)] and [max(l)]: [None] is not iterable, an empty list has no
    least element. *)
Definition min (o : option (list Z)) : result Z :=
  match o with
  | None => Raise TypeError
  | Some [] => Raise ValueError
  | Some (x :: l) => Ok (foldl Z.min x l)
  end.

Definition max (o : option (list Z)) : result Z :=
  match o with
  | None => Raise TypeError
  | Some [] => Raise ValueError
  | Some (x :: l) => Ok (foldl Z.max x l)
  end.

(** [l[-1]]. *)
Definition last_item {A : Type} (l : list A) : result A :=
  match last l with
  | Some x => Ok x
  | None => Raise IndexError
  end.

(** [datetime.timedelta(seconds=s)] for [s] that is [None] or an int: its
    length in microseconds. The days of a [timedelta] are limited to
    999999999 in magnitude. *)
Definition timedelta (seconds : option Z) : result Z :=
  match seconds with
  | None => Raise TypeError
  | Some s =>
      if (-86399999913600 <=? s) && (s <=? 86399999999999)
      then Ok (s * 1000000) else Raise OverflowError
  end.

(** [t + d] for a [datetime] [t] and a [timedelta] [d]: the result has to
    lie between [datetime.min] and [datetime.max]. *)
Definition datetime_add (t d : Z) : result Z :=
  if (0 <=? t + d) && (t + d <=? 315537897599999999)
  then Ok (t + d) else Raise OverflowError.

(** [time.sleep(d.total_seconds())] for a [timedelta] [d] of whole seconds,
    given in microseconds: the length is converted to a 64-bit count of
    nanoseconds first, then tested for its sign. *)
Definition sleep (d : Z) : result unit :=
  if (d * 1000 <? - 2 ^ 63) || (2 ^ 63 - 1 <? d * 1000) then Raise OverflowError
  else if d <? 0 then Raise ValueError
  else Ok tt.

(** [x == t] for an int [x] and an object [t] that is [None] or an int. *)
Definition eq_opt_int (x : Z) (t : option Z) : bool :=
  match t with None => false | Some y => x =? y end.

(** A loop [for x in l: acc = body(acc, x)] whose body may raise. *)
Fixpoint for_each {A S : Type} (body : S → A → result S) (l : list A) (acc : S)
    : result S :=
  match l with
  | [] => Ok acc
  | x :: l' =>
      match body acc x with
      | Ok acc' => for_each body l' acc'
      | Raise e => Raise e
      end
  end.

(** *** Dicts whose iteration order is observed

    Keys are kept in insertion order; assigning to a key already present
    keeps its position. *)
Section dict.
Context {K V : Type} `{EqDecision K}.

(** [k in d] *)
Fixpoint dict_mem (d : list (K * V)) (k : K) : bool :=
  match d with
  | [] => false
  | (k', _) :: d' => if decide (k' = k) then true else dict_mem d' k
  end.

(** [d[k]] *)
Fixpoint dict_get (d : list (K * V)) (k : K) : result V :=
  match d with
  | [] => Raise KeyError
  | (k', v) :: d' => if decide (k' = k) then Ok v else dict_get d' k
  end.

(** [d[k] = v] *)
Fixpoint dict_set (d : list (K * V)) (k : K) (v : V) : list (K * V) :=
  match d with
  | [] => [(k, v)]
  | (k', v') :: d' =>
      if decide (k' = k) then (k, v) :: d' else (k', v') :: dict_set d' k v
  end.
End dict.

(** ["{0:03}".format(key)] for an int [key]: decimal digits, zero-padded
    after the sign to a width of three. *)
Fixpoint zeros (n : nat) : string :=
  match n with O => EmptyString | S n' => String "0"%char (zeros n') end.

Definition zfill (width : nat) (digits : string) : string :=
  String.append (zeros (width - String.length digits)) digits.

Definition format_03 (key : Z) : string :=
  let digits := NilZero.string_of_uint (N.to_uint (Z.abs_N key)) in
  if key <? 0 then String "-"%char (zfill 2 digits) else zfill 3 digits.

(** [sorted(l)] for a list of ints. *)
Definition sorted (l : list Z) : list Z := merge_sort Z.le l.

End Py.

Import Py.

#[global] Instance result_bind : MBind Py.result := fun _ _ k m => Py.bind m k.

(** ** inventory.py *)

Module Inventory.

(** The event dicts built by [add]. The source builds them with four
    [dict(...)] calls, one per constructor; the keys of the dict are the
    fields of the constructor. *)
Inductive Event : Type :=
  | EvBoth (rss otap : option (list Z)) (otap_max otap_min : Z)
  | EvRss (rss : option (list Z))
  | EvOtap (otap : option (list Z)) (otap_max otap_min : Z)
  | EvNeither (rss otap : option (list Z)).

(** [event["otap_min"]] and [event["otap_max"]]: a missing key raises
    [KeyError]. *)
Definition get_otap_min (ev : Event) : result Z :=
  match ev with
  | EvBoth _ _ _ m | EvOtap _ _ m => Ok m
  | EvRss _ | EvNeither _ _ => Raise KeyError
  end.

Definition get_otap_max (ev : Event) : result Z :=
  match ev with
  | EvBoth _ _ m _ | EvOtap _ m _ => Ok m
  | EvRss _ | EvNeither _ _ => Raise KeyError
  end.

(** The four shapes, by the keys an event dict holds. *)
Inductive Shape : Type := Both | RssOnly | OtapOnly | Neither.

Definition shape (ev : Event) : Shape :=
  match ev with
  | EvBoth _ _ _ _ => Both
  | EvRss _ => RssOnly
  | EvOtap _ _ _ => OtapOnly
  | EvNeither _ _ => Neither
  end.

(** The per-node dict [dict(last_seen=..., events=[...], count=...)]. *)
Record NodeRecord : Type := mkNode {
  last_seen : option Z;
  events : list Event;
  count : Z
}.

(** [_target_frequency] after [__init__]: a given number, or [math.inf]. *)
Inductive Freq : Type :=
  | Finite (n : Z)
  | Inf.

(** [x < math.inf] for [x] a stored target frequency. *)
Definition lt_inf (f : Freq) : bool :=
  match f with Finite _ => true | Inf => false end.

(** [x >= f] for an int [x] and a stored target frequency [f]. *)
Definition ge_freq (x : Z) (f : Freq) : bool :=
  match f with Finite n => n <=? x | Inf => false end.

(** The attributes of an [Inventory] the modelled methods read or write.
    [logger] and [_sequence] only feed log lines; [_elapsed] is never read;
    [_otaped_nodes] and [_runtime] are overwritten before each read. *)
Record t : Type := mkInv {
  _target_nodes : gset Z;
  _target_otap_sequence : option Z;
  _target_frequency : Freq;
  _start_delay : option Z;
  _maximum_duration : option Z;
  _nodes : gset Z;
  _index : gmap Z NodeRecord;
  _start : option Z;
  _deadline : option Z;
  _finish : option Z
}.

Definition set_nodes (inv : t) (ns : gset Z) : t :=
  mkInv (_target_nodes inv) (_target_otap_sequence inv) (_target_frequency inv)
        (_start_delay inv) (_maximum_duration inv)
        ns (_index inv) (_start inv) (_deadline inv) (_finish inv).

Definition set_index (inv : t) (ix : gmap Z NodeRecord) : t :=
  mkInv (_target_nodes inv) (_target_otap_sequence inv) (_target_frequency inv)
        (_start_delay inv) (_maximum_duration inv)
        (_nodes inv) ix (_start inv) (_deadline inv) (_finish inv).

(** [__init__] *)
Definition init (target_nodes : option (gset Z))
    (target_otap_sequence target_frequency start_delay maximum_duration : option Z) : t :=
  mkInv (default ∅ target_nodes)
        target_otap_sequence
        (match target_frequency with None => Inf | Some n => Finite n end)
        start_delay maximum_duration
        ∅ ∅ None None None.

(** [reset] *)
Definition reset (inv : t) : t :=
  mkInv (_target_nodes inv) (_target_otap_sequence inv) (_target_frequency inv)
        (_start_delay inv) (_maximum_duration inv)
        ∅ ∅ None None None.

(** [wait]: [timedelta] and the additions may raise before [_start] or
    [_deadline] is assigned, [time.sleep] after both are; the time slept
    through is the passing of time between clock readings. *)
Definition wait (inv : t) (now : Z) : t * result unit :=
  let inv := reset inv in
  match (d ← timedelta (_start_delay inv); datetime_add now d) with
  | Raise e => (inv, Raise e)
  | Ok start =>
      match (d ← timedelta (_maximum_duration inv); datetime_add start d) with
      | Raise e =>
          (mkInv (_target_nodes inv) (_target_otap_sequence inv)
                 (_target_frequency inv) (_start_delay inv)
                 (_maximum_duration inv) (_nodes inv) (_index inv)
                 (Some start) (_deadline inv) (_finish inv),
           Raise e)
      | Ok deadline =>
          (mkInv (_target_nodes inv) (_target_otap_sequence inv)
                 (_target_frequency inv) (_start_delay inv)
                 (_maximum_duration inv) (_nodes inv) (_index inv)
                 (Some start) (Some deadline) (_finish inv),
           sleep (start - now))
      end
  end.

(** The event built by [add] from [rss] and [otap_sequence]
    (the lines from [otap_min = None] to the last [dict(...)]). *)
Definition make_event (rss otap_sequence : option (list Z)) : result Event :=
  '(otap_min, otap_max) ←
    (if truthy_list otap_sequence
     then (mn ← Py.min otap_sequence;
           mx ← Py.max otap_sequence;
           Ok (Some mn, Some mx))
     else Ok (None, None));
  both ←
    (if truthy_opt_int otap_min && truthy_opt_int otap_max
     then Py.any rss
     else Ok false);
  if (both : bool) then
    (mx ← Py.max otap_sequence;
     mn ← Py.min otap_sequence;
     Ok (EvBoth rss otap_sequence mx mn))
  else
    (has_rss ← Py.any rss;
     if (has_rss : bool) then Ok (EvRss rss)
     else
       (has_otap ← Py.any otap_sequence;
        if (has_otap : bool) then
          (mx ← Py.max otap_sequence;
           mn ← Py.min otap_sequence;
           Ok (EvOtap otap_sequence mx mn))
        else Ok (EvNeither rss otap_sequence))).

(** The [try]/[except KeyError] block of [add]. *)
Definition record_event (ix : gmap Z NodeRecord) (node_address : Z)
    (timestamp : option Z) (event : Event) : gmap Z NodeRecord :=
  match ix !! node_address with
  | Some r =>
      <[node_address := mkNode timestamp (events r ++ [event]) (count r + 1)]> ix
  | None =>
      <[node_address := mkNode timestamp [event] 1]> ix
  end.

(** [add]: the state after the call and whether it returned or raised. *)
Definition add (inv : t) (node_address : Z) (rss otap_sequence : option (list Z))
    (timestamp : option Z) : t * result unit :=
  let inv := set_nodes inv ({[node_address]} ∪ _nodes inv) in
  match make_event rss otap_sequence with
  | Raise e => (inv, Raise e)
  | Ok event =>
      (set_index inv (record_event (_index inv) node_address timestamp event), Ok tt)
  end.

(** [remove]: [set.remove] and [del] both raise [KeyError] on a missing key. *)
Definition remove (inv : t) (node_address : Z) : t * result unit :=
  if bool_decide (node_address ∈ _nodes inv) then
    let inv := set_nodes inv (_nodes inv ∖ {[node_address]}) in
    match _index inv !! node_address with
    | Some _ => (set_index inv (delete node_address (_index inv)), Ok tt)
    | None => (inv, Raise KeyError)
    end
  else (inv, Raise KeyError).

(** [elapsed]: [runtime - self._start] with [_start] still [None] is a
    [TypeError]. *)
Definition elapsed (inv : t) (now : Z) : result Z :=
  let runtime := match _finish inv with Some f => f | None => now end in
  match _start inv with
  | None => Raise TypeError
  | Some s => Ok (runtime - s)
  end.

(** [until]: time left to [deadline], read at [now]. *)
Definition until (deadline : option Z) (now : Z) : result Z :=
  match deadline with
  | None => Raise TypeError
  | Some d => Ok (d - now)
  end.

(** [is_out_of_time] *)
Definition is_out_of_time (inv : t) (now : Z) : result bool :=
  time_left ← until (_deadline inv) now;
  if time_left <=? 0 then Ok true else Ok false.

(** Truth value of a set. *)
Definition truthy_set (s : gset Z) : bool := negb (bool_decide (s = ∅)).

(** [a.issuperset(b)] *)
Definition issuperset (a b : gset Z) : bool := bool_decide (b ⊆ a).

(** [difference]: [nodes ^ _target_nodes]. *)
Definition difference (inv : t) : gset Z :=
  (_nodes inv ∖ _target_nodes inv) ∪ (_target_nodes inv ∖ _nodes inv).

(** [is_complete]: the log line of the [else] branch reads [elapsed]. *)
Definition is_complete (inv : t) (now : Z) : result bool :=
  if negb (truthy_set (_target_nodes inv)) || lt_inf (_target_frequency inv)
  then Ok false
  else if issuperset (_nodes inv) (_target_nodes inv) then
    (if negb (truthy_opt_int (_target_otap_sequence inv)) then Ok true
     else Ok false)
  else
    (_ ← elapsed inv now; Ok false).

(** One pass of the loop of [otaped_nodes]: a [KeyError] is swallowed, any
    other exception escapes. *)
Definition otaped_step (target : option Z) (acc : gset Z)
    (item : Z * NodeRecord) : result (gset Z) :=
  let '(node_address, details) := item in
  let test :=
    ev ← last_item (events details);
    mn ← get_otap_min ev;
    if eq_opt_int mn target then Ok true
    else (ev' ← last_item (events details);
          mx ← get_otap_max ev';
          Ok (eq_opt_int mx target)) in
  match test with
  | Ok true => Ok ({[node_address]} ∪ acc)
  | Ok false => Ok acc
  | Raise KeyError => Ok acc
  | Raise e => Raise e
  end.

(** [otaped_nodes]: the result is a set, so the order in which the items of
    [_index] are visited does not show in it. *)
Definition otaped_nodes (inv : t) : result (gset Z) :=
  for_each (otaped_step (_target_otap_sequence inv)) (map_to_list (_index inv)) ∅.

(** [is_otaped] *)
Definition is_otaped (inv : t) (now : Z) : result bool :=
  if negb (truthy_set (_target_nodes inv))
     || match _target_otap_sequence inv with None => true | Some _ => false end
  then Ok false
  else
    otaped ← otaped_nodes inv;
    if negb (issuperset otaped (_target_nodes inv)) then
      (_ ← elapsed inv now; _ ← otaped_nodes inv; Ok false)
    else Ok true.

(** [self._index[node]] *)
Definition index_get (inv : t) (node : Z) : result NodeRecord :=
  match _index inv !! node with
  | Some r => Ok r
  | None => Raise KeyError
  end.

(** The value [frequency] and [frequency_by_value] read for one node. *)
Definition node_value (inv : t) (node : Z) : result Z :=
  if truthy_opt_int (_target_otap_sequence inv) then
    (r ← index_get inv node;
     ev ← last_item (events r);
     get_otap_max ev)
  else
    (r ← index_get inv node; Ok (count r)).

(** [_account_for_target_nodes]: the target set is visited in the order
    [elements] lists it (Python leaves the order of a set open). *)
Definition _account_for_target_nodes (inv : t) (d : list (Z * Z)) : list (Z * Z) :=
  if truthy_set (_target_nodes inv) then
    foldl (λ d node, if negb (dict_mem d node) then dict_set d node 0 else d)
          d (elements (_target_nodes inv))
  else d.

(** [frequency] *)
Definition frequency (inv : t) : result (list (Z * Z)) :=
  let nodes := elements (dom (_index inv)) in
  frequency ←
    for_each (λ frequency node,
                v ← node_value inv node; Ok (dict_set frequency node v))
             (sorted nodes) [];
  Ok (_account_for_target_nodes inv frequency).

(** [_filter_dict] *)
Definition _filter_dict (inv : t) (d : list (Z * Z)) : result (list (Z * Z)) :=
  for_each (λ w '(k, _),
              if bool_decide (k ∈ _target_nodes inv)
              then (v ← dict_get d k; Ok (dict_set w k v))
              else Ok w)
           d [].

(** [is_frequency_reached]: [__init__] has replaced a [None] target frequency
    by [math.inf], so the [is None] test never holds. *)
Definition is_frequency_reached (inv : t) : result bool :=
  if negb (truthy_set (_target_nodes inv)) then Ok false
  else
    frequency ← frequency inv;
    frequency ←
      (if truthy_set (_target_nodes inv) then _filter_dict inv frequency
       else Ok frequency);
    Ok (forallb (λ x, ge_freq x (_target_frequency inv)) frequency.*2).

(** [frequency_by_value]: the keys of the result are
    ["frequency_" + format_03 value]. *)
Definition frequency_by_value (inv : t) : result (list (string * gset Z)) :=
  let nodes := elements (dom (_index inv)) in
  '(frequency, _) ←
    for_each (λ '(frequency, max_value) node,
                value ← node_value inv node;
                let max_value := if max_value <? value then value else max_value in
                let frequency :=
                  if negb (dict_mem frequency value)
                  then dict_set frequency value (∅ : gset Z) else frequency in
                s ← dict_get frequency value;
                Ok (dict_set frequency value ({[node]} ∪ s), max_value))
             (sorted nodes) ([], 0);
  for_each (λ ofreq key,
              s ← dict_get frequency key;
              Ok (dict_set ofreq (String.append "frequency_"%string (format_03 key)) s))
           (sorted frequency.*1) [].

(** [finish]: stores the clock reading and returns it. *)
Definition finish (inv : t) (now : Z) : t * Z :=
  (mkInv (_target_nodes inv) (_target_otap_sequence inv) (_target_frequency inv)
         (_start_delay inv) (_maximum_duration inv)
         (_nodes inv) (_index inv) (_start inv) (_deadline inv) (Some now),
   now).

End Inventory.

(** ** api/mysql/handlers.py *)

Module MySQLObserver.

(** Modelled from the spec: the message classes of
    [wirepas_backend_client/messages] are not among the sources. The spec
    gives a work item one kind out of a closed set, with a node address, a
    timestamp and a payload; [OtherMessage] stands for the kinds the router
    has no handler for. *)
Inductive MessageClass : Type :=
  | AdvertiserMessage
  | BootDiagnosticsMessage
  | NeighborDiagnosticsMessage
  | NodeDiagnosticsMessage
  | TestNWMessage
  | TrafficDiagnosticsMessage
  | DiagnosticsMessage
  | OtherMessage.

#[global] Instance MessageClass_eq_dec : EqDecision MessageClass.
Proof. solve_decision. Defined.

Record Message : Type := mkMessage {
  kind : MessageClass;
  address : Z;
  timestamp : Z;
  payload : list Z
}.

(** Modelled from the spec: an item is an instance of the class of its kind
    and of no other of these classes. *)
Definition isinstance (message : Message) (c : MessageClass) : bool :=
  bool_decide (kind message = c).

(** The write operations of the [MySQL] connector ([connectors.py], not among
    the sources) that the observer calls. *)
Inductive Write : Type :=
  | put_to_received_packets
  | put_diagnostics
  | put_advertiser
  | put_testnw_measurements
  | put_boot_diagnostics
  | put_neighbor_diagnostics
  | put_node_diagnostics
  | put_traffic_diagnostics.

(** A connection: the writes issued on it so far, oldest first, and which
    writes the backend refuses (the call then raises [MySQLdb.Error]). *)
Record MySQL : Type := mkMySQL {
  issued : list (Write * Message);
  refuses : Write → Message → bool
}.

Inductive outcome : Type :=
  | Returned
  | MySQLdbError.

(** [mysql.<w>(message)] *)
Definition call (mysql : MySQL) (w : Write) (message : Message) : MySQL * outcome :=
  (mkMySQL (issued mysql ++ [(w, message)]) (refuses mysql),
   if refuses mysql w message then MySQLdbError else Returned).

(** [_map_message] *)
Definition _map_message (mysql : MySQL) (message : Message) : MySQL * outcome :=
  match call mysql put_to_received_packets message with
  | (mysql, MySQLdbError) => (mysql, MySQLdbError)
  | (mysql, Returned) =>
      if isinstance message DiagnosticsMessage then
        call mysql put_diagnostics message
      else if isinstance message AdvertiserMessage then
        call mysql put_advertiser message
      else if isinstance message TestNWMessage then
        call mysql put_testnw_measurements message
      else if isinstance message BootDiagnosticsMessage then
        call mysql put_boot_diagnostics message
      else if isinstance message NeighborDiagnosticsMessage then
        call mysql put_neighbor_diagnostics message
      else if isinstance message NodeDiagnosticsMessage then
        call mysql put_node_diagnostics message
      else if isinstance message TrafficDiagnosticsMessage then
        call mysql put_traffic_diagnostics message
      else (mysql, Returned)
  end.

(** The router in the spec's words: a fixed table from kinds to handlers,
    consulted after the generic write. *)
Definition handler_table (k : MessageClass) : option Write :=
  match k with
  | AdvertiserMessage => Some put_advertiser
  | BootDiagnosticsMessage => Some put_boot_diagnostics
  | NeighborDiagnosticsMessage => Some put_neighbor_diagnostics
  | NodeDiagnosticsMessage => Some put_node_diagnostics
  | TestNWMessage => Some put_testnw_measurements
  | TrafficDiagnosticsMessage => Some put_traffic_diagnostics
  | DiagnosticsMessage => Some put_diagnostics
  | OtherMessage => None
  end.

Definition route_by_table (mysql : MySQL) (message : Message) : MySQL * outcome :=
  match call mysql put_to_received_packets message with
  | (mysql, MySQLdbError) => (mysql, MySQLdbError)
  | (mysql, Returned) =>
      match handler_table (kind message) with
      | Some w => call mysql w message
      | None => (mysql, Returned)
      end
  end.

(** *** The pool and its supervisor *)

(** A [multiprocessing.Process] object, named by the sequence number the
    pool gave it. *)
Record Process : Type := mkProcess { pseq : Z }.

(** [Process.start()]: starts the child process and returns [None]. *)
Definition start (p : Process) : option Process := None.

(** The [workers] dict built by [pool_on_data_received]: for every [pseq] in
    [range(1, n_workers)] the value of [multiprocessing.Process(...).start()]. *)
Definition spawn_workers (n_workers : Z) : list (Z * option Process) :=
  map (λ pseq, (pseq, start (mkProcess pseq))) (seqZ 1 (n_workers - 1)).

(** What the supervisor can observe at one instant: whether somebody else
    has set [exit_signal], and which child processes are alive. *)
Record World : Type := mkWorld {
  exit_requested : bool;
  alive : Z → bool
}.

(** [worker.is_alive()]: [None] has no such attribute. *)
Definition is_alive (w : World) (worker : option Process) : result bool :=
  match worker with
  | None => Raise AttributeError
  | Some p => Ok (alive w (pseq p))
  end.

(** The [for] loop of [_wait_for_exit]: [Ok true] when it sets
    [exit_signal]. *)
Fixpoint poll (w : World) (workers : list (Z * option Process)) : result bool :=
  match workers with
  | [] => Ok false
  | (_, worker) :: rest =>
      match is_alive w worker with
      | Raise e => Raise e
      | Ok true => poll w rest
      | Ok false => Ok true
      end
  end.

(** How a run of the supervisor loop ends, with the final [exit_signal]. *)
Inductive run_end : Type :=
  | Exited (exit_signal : bool)
  | Crashed (e : Exn) (exit_signal : bool)
  | Running (exit_signal : bool).

(** [_wait_for_exit]: [world i] is what can be observed at the [i]-th
    reading; between the test of the loop head and the poll lies one
    [time.sleep(self.timeout)]. [rounds] bounds the passes that are run. *)
Fixpoint _wait_for_exit (rounds : nat) (world : nat → World) (i : nat)
    (exit_signal : bool) (workers : list (Z * option Process)) : run_end :=
  match rounds with
  | O => Running exit_signal
  | S rounds' =>
      if exit_signal || exit_requested (world i) then Exited true
      else
        match workers with
        | [] => _wait_for_exit rounds' world (S i) exit_signal workers
        | _ :: _ =>
            match poll (world (S i)) workers with
            | Raise e => Crashed e exit_signal
            | Ok set => _wait_for_exit rounds' world (S i) set workers
            end
        end
  end.

(** [pool_on_data_received] *)
Definition pool_on_data_received (rounds : nat) (world : nat → World)
    (n_workers : Z) : run_end :=
  _wait_for_exit rounds world 0 false (spawn_workers n_workers).

(** *** The dequeue loops *)

(** What one call [queue.get(timeout=..., block=True)] comes back with:
    [queue.Empty] after the timeout, [EOFError], [KeyboardInterrupt], or a
    message. *)
Inductive Get : Type :=
  | QueueEmpty
  | QueueEOF
  | Interrupted
  | Item (message : Message).

(** Why a loop was left by an exception it does not catch. *)
Inductive failure : Type :=
  | WriteFailed
  | QueueClosed
  | KeyboardInterrupt
  | ConnectFailed.

(** How a run of a dequeue loop ends: the loop was left normally, an
    exception escaped, or the loop is still going when the given answers of
    the queue and of the backend are used up. *)
Inductive loop_end : Type :=
  | Stopped
  | Died (why : failure)
  | Waiting.


(** One pass of the worker loop as the environment answers it: the answer
    of [storage_q.get], whether [mysql.database.ping(True)] raises
    [OperationalError], and for each attempt of [mysql.connect] in the
    reconnect loop whether it succeeds. *)
Record Turn : Type := mkTurn {
  got : Get;
  ping_fails : bool;
  connects : list bool
}.

(** How the reconnect loop is left. *)
Inductive reconnect_end : Type :=
  | Reconnected
  | GaveUp
  | StillTrying.

(** The inner [while not exit_signal.is_set()] loop of [work]: returns the
    number of readings of [exit_signal] made so far. A failed attempt is
    followed by [time.sleep(5)]. *)
Fixpoint reconnect (exit_signal : nat → bool) (reads : nat)
    (connects : list bool) : nat * reconnect_end :=
  if exit_signal reads then (S reads, GaveUp)
  else
    match connects with
    | [] => (S reads, StillTrying)
    | true :: _ => (S reads, Reconnected)
    | false :: connects' => reconnect exit_signal (S reads) connects'
    end.

(** The [while] loop of [work]. A [MySQLdb.Error] of [_map_message] is
    caught and logged. *)
Fixpoint work_loop (mysql : MySQL) (exit_signal : nat → bool) (reads : nat)
    (turns : list Turn) : MySQL * loop_end :=
  if exit_signal reads then (mysql, Stopped)
  else
    match turns with
    | [] => (mysql, Waiting)
    | turn :: turns' =>
        match got turn with
        | QueueEmpty => work_loop mysql exit_signal (S reads) turns'
        | QueueEOF | Interrupted => (mysql, Stopped)
        | Item message =>
            let '(reads, connection) :=
              if ping_fails turn
              then reconnect exit_signal (S reads) (connects turn)
              else (S reads, Reconnected) in
            match connection with
            | StillTrying => (mysql, Waiting)
            | Reconnected | GaveUp =>
                if negb (exit_signal reads) then
                  work_loop (_map_message mysql message).1 exit_signal
                            (S reads) turns'
                else work_loop mysql exit_signal (S reads) turns'
            end
        end
    end.

(** [work]: the first [mysql.connect] is not guarded. *)
Definition work (mysql : MySQL) (connected : bool) (exit_signal : nat → bool)
    (turns : list Turn) : MySQL * loop_end :=
  if connected then work_loop mysql exit_signal 0 turns
  else (mysql, Died ConnectFailed).

End MySQLObserver.

(** ** Runs of [add] calls and example sessions *)

(** One call [add(node_address, rss, otap_sequence, timestamp)]. *)
Record AddCall : Type := mkCall {
  call_address : Z;
  call_rss : option (list Z);
  call_otap : option (list Z);
  call_timestamp : option Z
}.

Definition add_call (inv : Inventory.t) (c : AddCall) : Inventory.t * result unit :=
  Inventory.add inv (call_address c) (call_rss c) (call_otap c) (call_timestamp c).

(** A driver that makes the calls in turn and goes on after a call that
    raised. *)
Definition add_all (inv : Inventory.t) (calls : list AddCall) : Inventory.t :=
  foldl (λ inv c, (add_call inv c).1) inv calls.

(** The calls [add] takes, told by their arguments alone: [rss] is a list
    and either holds a non-zero sample or comes with a list for
    [otap_sequence]. *)
Definition accepts (rss otap_sequence : option (list Z)) : bool :=
  match rss with
  | None => false
  | Some r =>
      existsb truthy_int r
      || match otap_sequence with Some _ => true | None => false end
  end.

(** The number of calls among [calls] that were made for [a] with arguments
    [add] takes. *)
Fixpoint accepted_by_input (a : Z) (calls : list AddCall) : nat :=
  match calls with
  | [] => 0%nat
  | c :: calls' =>
      ((if bool_decide (call_address c = a)
           && accepts (call_rss c) (call_otap c)
        then 1 else 0)
       + accepted_by_input a calls')%nat
  end.

(** The number of calls of a run that were made for [a] and returned. *)
Fixpoint accepted_calls (inv : Inventory.t) (a : Z) (calls : list AddCall) : nat :=
  match calls with
  | [] => 0%nat
  | c :: calls' =>
      ((if bool_decide (call_address c = a) && is_ok (add_call inv c).2
        then 1 else 0)
       + accepted_calls (add_call inv c).1 a calls')%nat
  end.

(** The count recorded for [a], [0] when [a] has no record. *)
Definition count_of (inv : Inventory.t) (a : Z) : Z :=
  match Inventory._index inv !! a with
  | Some r => Inventory.count r
  | None => 0
  end.

(** The latest event recorded for [a]. *)
Definition latest_event (inv : Inventory.t) (a : Z) : option Inventory.Event :=
  r ← Inventory._index inv !! a; last (Inventory.events r).

(** Every record holds at least one event. *)
Definition wf (inv : Inventory.t) : Prop :=
  ∀ a r, Inventory._index inv !! a = Some r → Inventory.events r ≠ [].

(** The shape the spec expects: by which of the two sequences were supplied
    (given and not empty). *)
Definition supplied (l : option (list Z)) : bool := truthy_list l.

Definition shape_by_supplied (rss otap_sequence : option (list Z)) : Inventory.Shape :=
  match supplied rss, supplied otap_sequence with
  | true, true => Inventory.Both
  | true, false => Inventory.RssOnly
  | false, true => Inventory.OtapOnly
  | false, false => Inventory.Neither
  end.

(** Sessions used in the examples below. *)
Definition session_plain : Inventory.t :=
  Inventory.init (Some {[1]}) None None (Some 0) (Some 10).

Definition session_otap_zero : Inventory.t :=
  Inventory.init (Some {[1]}) (Some 0) None None None.

Definition session_otap_7 : Inventory.t :=
  Inventory.init (Some {[1; 2]}) (Some 7) None None None.

Definition session_no_target_nodes : Inventory.t :=
  Inventory.init None (Some 7) None None None.

(** The latest event of record [r] carries [target] as its [otap_min] or as
    its [otap_max]. *)
Definition otaped_at (target : Z) (r : Inventory.NodeRecord) : Prop :=
  ∃ ev, last (Inventory.events r) = Some ev
        ∧ (Inventory.get_otap_min ev = Ok target
           ∨ Inventory.get_otap_max ev = Ok target).

(** Targets [{1, 2}] and OTAP target [7]; node 1 last seen with OTAP
    sequences [3; 7] (maximum [7]), node 2 with [7; 9] (minimum [7]), both
    after an earlier observation that does not carry the target. *)
Definition session_otaped : Inventory.t :=
  add_all session_otap_7
    [mkCall 1 (Some [-60]) (Some [3]) (Some 1);
     mkCall 2 (Some [-61]) None (Some 2);
     mkCall 1 (Some [-62]) (Some [3; 7]) (Some 3);
     mkCall 2 (Some []) (Some [7; 9]) (Some 4)].

(** The value [frequency] reports for a node that has a record: the
    [otap_max] of its latest event when the OTAP target is set and not zero,
    its count otherwise. *)
Definition frequency_value (inv : Inventory.t) (a : Z) : Z :=
  if truthy_opt_int (Inventory._target_otap_sequence inv) then
    match latest_event inv a with
    | Some ev => match Inventory.get_otap_max ev with Ok m => m | Raise _ => 0 end
    | None => 0
    end
  else count_of inv a.

(** Target node [1] is never seen, node [5] is seen once. *)
Definition session_unseen_target : Inventory.t :=
  (Inventory.add session_plain 5 (Some [-70]) None (Some 1)).1.

(** Target node [1] is never seen; the call for node [9] raises (its [rss] is
    [None]), so [9] is an observed node without a record; node [5] is seen
    once. *)
Definition session_raised_non_target : Inventory.t :=
  (Inventory.add (Inventory.add session_plain 9 None None (Some 1)).1
     5 (Some [-70]) None (Some 2)).1.

(** No target nodes, OTAP target [7], node [5] seen once without OTAP data. *)
Definition session_rss_only : Inventory.t :=
  (Inventory.add session_no_target_nodes 5 (Some [-70]) None (Some 1)).1.

(** Target nodes [{1, 2}], OTAP target [7], node [1] seen once without OTAP
    data. *)
Definition session_rss_only_targets : Inventory.t :=
  (Inventory.add session_otap_7 1 (Some [-70]) None (Some 1)).1.

(** The calls a driver can make that write the session. *)
Inductive Op : Type :=
  | OpAdd (c : AddCall)
  | OpRemove (a : Z)
  | OpReset
  | OpWait (now : Z)
  | OpFinish (now : Z).

(** The session after one call, whether it returned or raised. *)
Definition step (inv : Inventory.t) (op : Op) : Inventory.t :=
  match op with
  | OpAdd c => (add_call inv c).1
  | OpRemove a => (Inventory.remove inv a).1
  | OpReset => Inventory.reset inv
  | OpWait now => (Inventory.wait inv now).1
  | OpFinish now => (Inventory.finish inv now).1
  end.

Definition run_ops (inv : Inventory.t) (ops : list Op) : Inventory.t :=
  foldl step inv ops.

(** Every recorded address is an observed one, and every record counts its
    events, of which there is at least one. *)
Definition consistent (inv : Inventory.t) : Prop :=
  dom (Inventory._index inv) ⊆ Inventory._nodes inv
  ∧ ∀ a r, Inventory._index inv !! a = Some r →
           Inventory.events r ≠ []
           ∧ Inventory.count r = Z.of_nat (List.length (Inventory.events r)).

(** A session whose delay is negative. *)
Definition session_negative_delay : Inventory.t :=
  Inventory.init (Some {[1]}) None None (Some (-5)) (Some 30).

(** A session whose delay and duration are set. *)
Definition session_timed : Inventory.t :=
  Inventory.init (Some {[1; 2]}) None None (Some 2) (Some 30).

(** The value [frequency] holds for an address: that of the node if it has
    a record, or the [0] of a target node without a record. *)
Definition reported_value (inv : Inventory.t) (a : Z) : Z :=
  if bool_decide (a ∈ dom (Inventory._index inv))
  then frequency_value inv a else 0.

(** Target frequency [2], target nodes [{1, 2}]. *)
Definition session_twice : Inventory.t :=
  Inventory.init (Some {[1; 2]}) None (Some 2) None None.

(** Reading back a decimal label: an optional minus sign and digits, as
    Python's [int(s)] reads the strings that [format_03] writes. *)
Definition int_of_label (s : string) : option Z :=
  match NilEmpty.uint_of_string s with
  | Some d => Some (Z.of_N (N.of_uint d))
  | None =>
      match s with
      | String _ s' =>
          match NilEmpty.uint_of_string s' with
          | Some d => Some (- Z.of_N (N.of_uint d))
          | None => None
          end
      | EmptyString => None
      end
  end.

(** The nodes among [l] whose frequency value is [x]. *)
Definition bucket (inv : Inventory.t) (l : list Z) (x : Z) : gset Z :=
  list_to_set (filter (λ a, frequency_value inv a = x) l).

(** What the first loop of [frequency_by_value] has built after the nodes
    [p]: one key per value met, holding the nodes of that value. *)
Definition grouped (inv : Inventory.t) (p : list Z) (fr : list (Z * gset Z)) : Prop :=
  NoDup fr.*1
  ∧ (∀ x, x ∈ fr.*1 ↔ ∃ a, a ∈ p ∧ frequency_value inv a = x)
  ∧ (∀ x, x ∈ fr.*1 → dict_get fr x = Ok (bucket inv p x)).

(** The writes the router issues for one message on a connection: the
    generic one, and the one for its kind unless the generic one raised. *)
Definition writes_of (mysql : MySQLObserver.MySQL) (message : MySQLObserver.Message)
    : list (MySQLObserver.Write * MySQLObserver.Message) :=
  (MySQLObserver.put_to_received_packets, message)
  :: (if MySQLObserver.refuses mysql MySQLObserver.put_to_received_packets message
      then []
      else match MySQLObserver.handler_table (MySQLObserver.kind message) with
           | Some w => [(w, message)]
           | None => []
           end).

(** The messages among the answers of the queue. *)
Definition items (gets : list MySQLObserver.Get) : list MySQLObserver.Message :=
  omap (λ g, match g with MySQLObserver.Item m => Some m | _ => None end) gets.

(** A backend that refuses the advertiser writes and no other. *)
Definition mysql_no_advertiser : MySQLObserver.MySQL :=
  MySQLObserver.mkMySQL []
    (λ w _, match w with MySQLObserver.put_advertiser => true | _ => false end).

Definition message_of (k : MySQLObserver.MessageClass) (a : Z) : MySQLObserver.Message :=
  MySQLObserver.mkMessage k a 0 [].

(** A backend that refuses the generic "received" write and no other. *)
Definition mysql_no_received : MySQLObserver.MySQL :=
  MySQLObserver.mkMySQL []
    (λ w _, match w with
            | MySQLObserver.put_to_received_packets => true
            | _ => false
            end).

(** The calls on which [add] follows the four-shape rule, [rss] being the
    list [r]: [r] is empty or holds a non-zero sample; if [r] is not empty,
    neither the least nor the greatest element of the OTAP sequence (if
    there is one) is zero; if [r] is empty, [otap_sequence] is a list that
    is empty or holds a non-zero element. *)
Definition rule_applies (r : list Z) (otap : option (list Z)) : Prop :=
  (r = [] ∨ Exists (λ x, x ≠ 0) r)
  ∧ (r ≠ [] → Py.min otap ≠ Ok 0 ∧ Py.max otap ≠ Ok 0)
  ∧ (r = [] → ∃ o, otap = Some o ∧ (o = [] ∨ Exists (λ x, x ≠ 0) o)).

(** ** Properties of [Inventory.add] *)

Section add_facts.
Import Inventory.

Lemma make_event_rss_None otap_sequence :
  make_event None otap_sequence = Raise TypeError.
Proof.
  destruct otap_sequence as [[|x o]|]; cbn; try reflexivity.
  destruct (truthy_int (foldl Z.min x o) && truthy_int (foldl Z.max x o));
    reflexivity.
Qed.

Lemma add_nodes inv a rss otap ts :
  _nodes (add inv a rss otap ts).1 = {[a]} ∪ _nodes inv.
Proof. unfold add. destruct (make_event rss otap); reflexivity. Qed.

Lemma add_raise inv a rss otap ts e :
  make_event rss otap = Raise e →
  add inv a rss otap ts = (set_nodes inv ({[a]} ∪ _nodes inv), Raise e).
Proof. intros H. unfold add. rewrite H. reflexivity. Qed.

Lemma add_ok inv a rss otap ts ev :
  make_event rss otap = Ok ev →
  add inv a rss otap ts =
    (set_index (set_nodes inv ({[a]} ∪ _nodes inv))
               (record_event (_index inv) a ts ev), Ok tt).
Proof. intros H. unfold add. rewrite H. reflexivity. Qed.

Lemma add_outcome inv a rss otap ts :
  (add inv a rss otap ts).2 = Ok tt ∨
  ∃ e, (add inv a rss otap ts).2 = Raise e.
Proof. unfold add. destruct (make_event rss otap); cbn; eauto. Qed.

Lemma record_event_lookup ix a ts ev :
  record_event ix a ts ev !! a =
    Some (match ix !! a with
          | Some r => mkNode ts (events r ++ [ev]) (count r + 1)
          | None => mkNode ts [ev] 1
          end).
Proof.
  unfold record_event. destruct (ix !! a); apply lookup_insert_eq.
Qed.

Lemma record_event_lookup_ne ix a b ts ev :
  a ≠ b → record_event ix a ts ev !! b = ix !! b.
Proof.
  intros Hne. unfold record_event.
  destruct (ix !! a); by rewrite lookup_insert_ne.
Qed.

Lemma add_index_other inv a b rss otap ts :
  a ≠ b → _index (add inv a rss otap ts).1 !! b = _index inv !! b.
Proof.
  intros Hne. unfold add. destruct (make_event rss otap); cbn; [|done].
  by apply record_event_lookup_ne.
Qed.

Lemma add_index_raise inv a rss otap ts e :
  (add inv a rss otap ts).2 = Raise e →
  _index (add inv a rss otap ts).1 = _index inv.
Proof. unfold add. destruct (make_event rss otap); cbn; [discriminate|done]. Qed.

Lemma add_index_ok inv a rss otap ts :
  (add inv a rss otap ts).2 = Ok tt →
  ∃ ev, make_event rss otap = Ok ev ∧
        _index (add inv a rss otap ts).1 !! a =
          Some (match _index inv !! a with
                | Some r => mkNode ts (events r ++ [ev]) (count r + 1)
                | None => mkNode ts [ev] 1
                end).
Proof.
  unfold add. destruct (make_event rss otap) as [ev|]; cbn; [|discriminate].
  intros _. exists ev. split; [done|]. apply record_event_lookup.
Qed.

(** The invariant [wf] holds initially and is kept by every method that
    writes [_index]. *)
Lemma init_wf tn to tf sd md : wf (init tn to tf sd md).
Proof. intros a r. cbn. by rewrite lookup_empty. Qed.

Lemma reset_wf inv : wf (reset inv).
Proof. intros a r. cbn. by rewrite lookup_empty. Qed.

Lemma wait_index inv now : _index (wait inv now).1 = ∅.
Proof.
  unfold wait.
  destruct (d ← timedelta (_start_delay (reset inv)); datetime_add now d)
    as [start|e]; [|done].
  by destruct (d ← timedelta (_maximum_duration (reset inv));
               datetime_add start d).
Qed.

Lemma wait_wf inv now : wf (wait inv now).1.
Proof. intros a r. by rewrite wait_index, lookup_empty. Qed.

Lemma add_wf inv a rss otap ts : wf inv → wf (add inv a rss otap ts).1.
Proof.
  intros Hwf b r. destruct (decide (a = b)) as [<-|Hne].
  - destruct (add_outcome inv a rss otap ts) as [Hok|[e He]].
    + destruct (add_index_ok _ _ _ _ _ Hok) as (ev & _ & ->).
      intros [= <-]. destruct (_index inv !! a) as [r0|]; cbn; [|done].
      by destruct (events r0).
    + rewrite (add_index_raise _ _ _ _ _ _ He). apply Hwf.
  - rewrite add_index_other by done. apply Hwf.
Qed.

Lemma remove_wf inv a : wf inv → wf (remove inv a).1.
Proof.
  intros Hwf b r. unfold remove. case_bool_decide; cbn; [|apply Hwf].
  destruct (_index inv !! a) eqn:Ha; cbn; [|apply Hwf].
  destruct (decide (a = b)) as [<-|Hne].
  - by rewrite lookup_delete_eq.
  - rewrite lookup_delete_ne by done. apply Hwf.
Qed.

Lemma add_all_wf calls : ∀ inv, wf inv → wf (add_all inv calls).
Proof.
  induction calls as [|c calls IH]; intros inv Hwf; [done|].
  cbn. apply IH. by apply add_wf.
Qed.
End add_facts.

(** C9. A call of [add] with [rss] left at [None] raises [TypeError]: the
    address is in [_nodes] afterwards, [_index] is as before (no event,
    count or last_seen is stored). Hence a call that returns had a list
    for [rss]. *)
Theorem add_rss_None_raises :
  ∀ (inv : Inventory.t) (a : Z) (otap : option (list Z)) (ts : option Z),
    (Inventory.add inv a None otap ts).2 = Raise TypeError
    ∧ Inventory._nodes (Inventory.add inv a None otap ts).1
        = {[a]} ∪ Inventory._nodes inv
    ∧ Inventory._index (Inventory.add inv a None otap ts).1
        = Inventory._index inv
    ∧ (∀ rss, (Inventory.add inv a rss otap ts).2 = Ok tt → ∃ l, rss = Some l).
Proof.
  intros inv a otap ts.
  rewrite (add_raise inv a None otap ts TypeError) by apply make_event_rss_None.
  repeat split.
  intros [l|] H; [by exists l|].
  rewrite (add_raise inv a None otap ts TypeError) in H
    by apply make_event_rss_None.
  discriminate.
Qed.

(** [make_event] on a list [r], by the tests it makes. *)
Lemma make_event_list (r : list Z) (otap : option (list Z)) :
  Inventory.make_event (Some r) otap =
    match otap with
    | None =>
        if existsb truthy_int r then Ok (Inventory.EvRss (Some r))
        else Raise TypeError
    | Some [] =>
        if existsb truthy_int r then Ok (Inventory.EvRss (Some r))
        else Ok (Inventory.EvNeither (Some r) otap)
    | Some (y :: o) =>
        if truthy_int (foldl Z.min y o) && truthy_int (foldl Z.max y o)
           && existsb truthy_int r
        then Ok (Inventory.EvBoth (Some r) otap (foldl Z.max y o)
                   (foldl Z.min y o))
        else if existsb truthy_int r then Ok (Inventory.EvRss (Some r))
        else if existsb truthy_int (y :: o)
        then Ok (Inventory.EvOtap otap (foldl Z.max y o) (foldl Z.min y o))
        else Ok (Inventory.EvNeither (Some r) otap)
    end.
Proof.
  destruct otap as [[|y o]|]; cbn.
  - by destruct (existsb truthy_int r).
  - destruct (truthy_int (foldl Z.min y o) && truthy_int (foldl Z.max y o));
      cbn; destruct (existsb truthy_int r); cbn; try done;
      by destruct (truthy_int y || existsb truthy_int o).
  - by destruct (existsb truthy_int r).
Qed.

(** [add] returns exactly on the arguments [accepts] tells. *)
Lemma make_event_accepts (rss otap : option (list Z)) :
  if accepts rss otap then ∃ ev, Inventory.make_event rss otap = Ok ev
  else Inventory.make_event rss otap = Raise TypeError.
Proof.
  destruct rss as [r|]; cbn; [|apply make_event_rss_None].
  rewrite make_event_list.
  destruct otap as [[|y o]|]; destruct (existsb truthy_int r); cbn;
    rewrite ?andb_true_r, ?andb_false_r; eauto;
    repeat match goal with
           | |- context [if ?b then _ else _] => destruct b
           end; eauto.
Qed.

Lemma add_is_ok (inv : Inventory.t) (a : Z) (rss otap : option (list Z))
    (ts : option Z) :
  is_ok (Inventory.add inv a rss otap ts).2 = accepts rss otap.
Proof.
  pose proof (make_event_accepts rss otap) as H.
  destruct (accepts rss otap).
  - destruct H as [ev Hev]. by rewrite (add_ok _ _ _ _ _ _ Hev).
  - by rewrite (add_raise _ _ _ _ _ _ H).
Qed.

(** ** Counting observations *)

Lemma count_of_add inv a b rss otap ts :
  count_of (Inventory.add inv a rss otap ts).1 b =
    count_of inv b +
    (if bool_decide (a = b) && is_ok (Inventory.add inv a rss otap ts).2
     then 1 else 0).
Proof.
  unfold count_of. case_bool_decide as Hab; cbn.
  - subst b. destruct (add_outcome inv a rss otap ts) as [Hok|[e He]].
    + destruct (add_index_ok _ _ _ _ _ Hok) as (ev & _ & ->).
      rewrite Hok. cbn. destruct (Inventory._index inv !! a); cbn; lia.
    + rewrite (add_index_raise _ _ _ _ _ _ He), He. cbn.
      destruct (Inventory._index inv !! a); lia.
  - rewrite add_index_other by done.
    destruct (Inventory._index inv !! b); lia.
Qed.

Lemma recorded_add inv a b rss otap ts :
  is_Some (Inventory._index (Inventory.add inv a rss otap ts).1 !! b) ↔
  is_Some (Inventory._index inv !! b) ∨
  bool_decide (a = b) && is_ok (Inventory.add inv a rss otap ts).2 = true.
Proof.
  case_bool_decide as Hab; cbn.
  - subst b. destruct (add_outcome inv a rss otap ts) as [Hok|[e He]].
    + destruct (add_index_ok _ _ _ _ _ Hok) as (ev & _ & ->).
      rewrite Hok. cbn. split; eauto.
    + rewrite (add_index_raise _ _ _ _ _ _ He), He. cbn.
      split; [eauto|]. by intros [?|?].
  - rewrite add_index_other by done. split; [eauto|]. by intros [?|?].
Qed.

Lemma add_all_count calls :
  ∀ inv a,
    count_of (add_all inv calls) a =
      count_of inv a + Z.of_nat (accepted_calls inv a calls).
Proof.
  induction calls as [|c calls IH]; intros inv a; cbn.
  - lia.
  - rewrite IH. unfold add_call at 1. rewrite count_of_add.
    unfold add_call.
    destruct (bool_decide (call_address c = a) && _); lia.
Qed.

Lemma add_all_recorded calls :
  ∀ inv a,
    is_Some (Inventory._index (add_all inv calls) !! a) ↔
    is_Some (Inventory._index inv !! a) ∨ (0 < accepted_calls inv a calls)%nat.
Proof.
  induction calls as [|c calls IH]; intros inv a; cbn.
  - split; [eauto|]. intros [?|?]; [done|lia].
  - rewrite IH. unfold add_call at 1. rewrite recorded_add.
    unfold add_call.
    destruct (bool_decide (call_address c = a) && _); cbn.
    + split; [intros [[?|_]|?]|intros [?|?]]; eauto; right; lia.
    + split; [intros [[?|?]|?]|intros [?|?]]; eauto; done.
Qed.

Lemma accepted_calls_by_input (calls : list AddCall) :
  ∀ inv a, accepted_calls inv a calls = accepted_by_input a calls.
Proof.
  induction calls as [|c calls IH]; intros inv a; cbn; [done|].
  rewrite IH. unfold add_call. by rewrite add_is_ok.
Qed.

(** C7. After any run of [add] calls on a fresh session, the count recorded
    for an address is the number of calls made for it that [add] accepted,
    that is, whose [rss] is a list that holds a non-zero sample or comes
    with a list for [otap_sequence]; the address has a record exactly when
    there was such a call. Such a call returns; it creates the record with
    count 1 when there was none, and raises the count by exactly 1
    otherwise. Any other call raises [TypeError] and leaves every record
    and count as it was. *)
Theorem add_count :
  ∀ (inv : Inventory.t) (calls : list AddCall) (a : Z),
    count_of (add_all (Inventory.reset inv) calls) a
      = Z.of_nat (accepted_by_input a calls)
    ∧ (is_Some (Inventory._index (add_all (Inventory.reset inv) calls) !! a)
       ↔ (0 < accepted_by_input a calls)%nat)
    ∧ (∀ inv' rss otap ts,
         accepts rss otap = true →
         (Inventory.add inv' a rss otap ts).2 = Ok tt
         ∧ Inventory.count
             <$> Inventory._index (Inventory.add inv' a rss otap ts).1 !! a
           = Some (match Inventory._index inv' !! a with
                   | Some r => Inventory.count r + 1
                   | None => 1
                   end))
    ∧ (∀ inv' rss otap ts,
         accepts rss otap = false →
         (Inventory.add inv' a rss otap ts).2 = Raise TypeError
         ∧ Inventory._index (Inventory.add inv' a rss otap ts).1
           = Inventory._index inv').
Proof.
  intros inv calls a. split; [|split; [|split]].
  - rewrite add_all_count, accepted_calls_by_input. unfold count_of. cbn.
    by rewrite lookup_empty.
  - rewrite add_all_recorded, accepted_calls_by_input. cbn.
    rewrite lookup_empty. split; [intros [[? ?]|?]; done|eauto].
  - intros inv' rss otap ts Hacc.
    pose proof (make_event_accepts rss otap) as Hev. rewrite Hacc in Hev.
    destruct Hev as [ev Hev]. rewrite (add_ok _ _ _ _ _ _ Hev). cbn.
    split; [done|]. rewrite record_event_lookup. cbn.
    by destruct (Inventory._index inv' !! a).
  - intros inv' rss otap ts Hacc.
    pose proof (make_event_accepts rss otap) as Hev. rewrite Hacc in Hev.
    by rewrite (add_raise _ _ _ _ _ _ Hev).
Qed.

(** ** The shape of the stored event *)

Lemma foldl_max_spec (l : list Z) :
  ∀ x, foldl Z.max x l ∈ x :: l ∧ Forall (λ y, y ≤ foldl Z.max x l) (x :: l).
Proof.
  induction l as [|y l IH]; intros x; cbn.
  - split; [by left|]. constructor; [lia|constructor].
  - destruct (IH (Z.max x y)) as [Hin Hall].
    apply Forall_cons in Hall as [Hxy Hall]. split.
    + apply elem_of_cons in Hin as [Heq|Hin].
      * rewrite Heq. destruct (Z.max_spec x y) as [[_ ->]|[_ ->]].
        -- right. by left.
        -- by left.
      * by do 2 right.
    + repeat constructor; [lia|lia|done].
Qed.

Lemma foldl_min_spec (l : list Z) :
  ∀ x, foldl Z.min x l ∈ x :: l ∧ Forall (λ y, foldl Z.min x l ≤ y) (x :: l).
Proof.
  induction l as [|y l IH]; intros x; cbn.
  - split; [by left|]. constructor; [lia|constructor].
  - destruct (IH (Z.min x y)) as [Hin Hall].
    apply Forall_cons in Hall as [Hxy Hall]. split.
    + apply elem_of_cons in Hin as [Heq|Hin].
      * rewrite Heq. destruct (Z.min_spec x y) as [[_ ->]|[_ ->]].
        -- by left.
        -- right. by left.
      * by do 2 right.
    + repeat constructor; [lia|lia|done].
Qed.

Lemma existsb_truthy_Exists (l : list Z) :
  existsb truthy_int l = true ↔ Exists (λ x, x ≠ 0) l.
Proof.
  induction l as [|x l IH]; cbn.
  - split; [done|]. by intros ?%Exists_nil.
  - rewrite orb_true_iff, IH, Exists_cons. unfold truthy_int.
    by rewrite negb_true_iff, Z.eqb_neq.
Qed.

Lemma truthy_int_true (z : Z) : truthy_int z = true ↔ z ≠ 0.
Proof. unfold truthy_int. by rewrite negb_true_iff, Z.eqb_neq. Qed.

Lemma latest_event_add (inv : Inventory.t) (a : Z) (rss otap : option (list Z))
    (ts : option Z) (ev : Inventory.Event) :
  Inventory.make_event rss otap = Ok ev →
  (Inventory.add inv a rss otap ts).2 = Ok tt
  ∧ latest_event (Inventory.add inv a rss otap ts).1 a = Some ev.
Proof.
  intros Hev. rewrite (add_ok _ _ _ _ _ _ Hev). split; [done|].
  unfold latest_event. cbn. rewrite record_event_lookup. cbn.
  destruct (Inventory._index inv !! a); cbn; [|done]. apply last_snoc.
Qed.

Lemma rule_applies_event (r : list Z) (otap : option (list Z)) :
  rule_applies r otap →
  ∃ ev,
    Inventory.make_event (Some r) otap = Ok ev
    ∧ Inventory.shape ev = shape_by_supplied (Some r) otap
    ∧ (supplied otap = false →
       Inventory.get_otap_min ev = Raise KeyError
       ∧ Inventory.get_otap_max ev = Raise KeyError)
    ∧ (∀ o, otap = Some o → o ≠ [] →
       ∃ mn mx,
         Inventory.get_otap_min ev = Ok mn
         ∧ Inventory.get_otap_max ev = Ok mx
         ∧ mn ∈ o ∧ mx ∈ o ∧ Forall (λ x, mn ≤ x ≤ mx) o).
Proof.
  intros (Hr & Hfull & Hempty). rewrite make_event_list.
  assert (∀ y o, ∃ mn mx,
            Ok (foldl Z.min y o) = Ok mn ∧ Ok (foldl Z.max y o) = Ok mx
            ∧ mn ∈ y :: o ∧ mx ∈ y :: o ∧ Forall (λ x, mn ≤ x ≤ mx) (y :: o))
    as Hminmax.
  { intros y o. exists (foldl Z.min y o), (foldl Z.max y o).
    destruct (foldl_min_spec o y) as [Hmin Hle].
    destruct (foldl_max_spec o y) as [Hmax Hge].
    repeat split; try done.
    rewrite Forall_forall in Hle, Hge. apply Forall_forall. intros z Hz.
    split; [by apply Hle|by apply Hge]. }
  destruct r as [|x r].
  - destruct (Hempty eq_refl) as (o & -> & Ho).
    change (existsb truthy_int []) with false.
    destruct o as [|y o].
    + eexists. split; [done|]. cbn. split; [done|]. split; [done|].
      by intros o [= <-].
    + destruct Ho as [?|Ho]; [done|]. apply existsb_truthy_Exists in Ho.
      rewrite andb_false_r, Ho. eexists. split; [done|]. cbn.
      split; [done|]. split; [done|]. intros o' [= <-] _. apply Hminmax.
  - destruct Hr as [?|Hr]; [done|]. apply existsb_truthy_Exists in Hr.
    rewrite Hr. destruct (Hfull ltac:(done)) as [Hmn Hmx].
    destruct otap as [[|y o]|].
    + eexists. split; [done|]. cbn. split; [done|]. split; [done|].
      by intros o [= <-].
    + cbn in Hmn, Hmx.
      assert (truthy_int (foldl Z.min y o) = true) as ->
        by (apply truthy_int_true; congruence).
      assert (truthy_int (foldl Z.max y o) = true) as ->
        by (apply truthy_int_true; congruence).
      cbn [andb]. eexists. split; [done|]. cbn.
      split; [done|]. split; [done|]. intros o' [= <-] _. apply Hminmax.
    + eexists. split; [done|]. cbn. split; [done|]. split; [done|]. done.
Qed.

Lemma off_rule_event (r : list Z) (otap : option (list Z)) :
  ¬ rule_applies r otap →
  Inventory.make_event (Some r) otap = Raise TypeError
  ∨ ∃ ev, Inventory.make_event (Some r) otap = Ok ev
          ∧ Inventory.shape ev ≠ shape_by_supplied (Some r) otap.
Proof.
  intros Hnot. rewrite make_event_list. destruct r as [|x r].
  - change (existsb truthy_int []) with false. destruct otap as [[|y o]|].
    + exfalso. apply Hnot. split; [by left|]. split; [done|].
      intros _. exists []. split; [done|by left].
    + rewrite andb_false_r.
      destruct (existsb truthy_int (y :: o)) eqn:Ho.
      * exfalso. apply Hnot. split; [by left|]. split; [done|].
        intros _. exists (y :: o). split; [done|]. right.
        by apply existsb_truthy_Exists.
      * right. eexists. split; [done|]. cbn. discriminate.
    + by left.
  - destruct (existsb truthy_int (x :: r)) eqn:Hr.
    + apply existsb_truthy_Exists in Hr. destruct otap as [[|y o]|].
      * exfalso. apply Hnot. split; [by right|]. split; [|done].
        intros _. cbn. split; discriminate.
      * destruct (truthy_int (foldl Z.min y o)) eqn:Hmn;
          destruct (truthy_int (foldl Z.max y o)) eqn:Hmx; cbn [andb];
          try (right; eexists; split; [done|]; cbn; discriminate).
        exfalso. apply Hnot. split; [by right|]. split; [|done].
        intros _. apply truthy_int_true in Hmn, Hmx. cbn.
        split; congruence.
      * exfalso. apply Hnot. split; [by right|]. split; [|done].
        intros _. cbn. split; discriminate.
    + destruct otap as [[|y o]|].
      * right. eexists. split; [done|]. cbn. discriminate.
      * rewrite andb_false_r.
        destruct (existsb truthy_int (y :: o));
          right; eexists; (split; [done|]); cbn; discriminate.
      * by left.
Qed.

(** C1, as amended. Let [rss] be a list. When it is empty or holds a
    non-zero sample, and [otap_sequence] is, for a non-empty [rss], [None],
    empty or a list whose least and greatest element are not zero, and, for
    an empty [rss], a list that is empty or holds a non-zero element, the
    call returns and the event appended to the record of the address has
    the shape given by which sequences are not empty; [otap_min] and
    [otap_max] are stored exactly when the OTAP sequence is not empty, and
    are then its least and greatest element. On every other call with a
    list for [rss], the call raises [TypeError] or appends an event of
    another shape. *)
Theorem add_event_shape :
  ∀ (inv : Inventory.t) (a : Z) (r : list Z) (otap : option (list Z))
    (ts : option Z),
    (rule_applies r otap →
     ∃ ev,
       (Inventory.add inv a (Some r) otap ts).2 = Ok tt
       ∧ latest_event (Inventory.add inv a (Some r) otap ts).1 a = Some ev
       ∧ Inventory.shape ev = shape_by_supplied (Some r) otap
       ∧ (supplied otap = false →
          Inventory.get_otap_min ev = Raise KeyError
          ∧ Inventory.get_otap_max ev = Raise KeyError)
       ∧ (∀ o, otap = Some o → o ≠ [] →
          ∃ mn mx,
            Inventory.get_otap_min ev = Ok mn
            ∧ Inventory.get_otap_max ev = Ok mx
            ∧ mn ∈ o ∧ mx ∈ o ∧ Forall (λ x, mn ≤ x ≤ mx) o))
    ∧ (¬ rule_applies r otap →
       (Inventory.add inv a (Some r) otap ts).2 = Raise TypeError
       ∨ ∃ ev,
           (Inventory.add inv a (Some r) otap ts).2 = Ok tt
           ∧ latest_event (Inventory.add inv a (Some r) otap ts).1 a = Some ev
           ∧ Inventory.shape ev ≠ shape_by_supplied (Some r) otap).
Proof.
  intros inv a r otap ts. split.
  - intros (ev & Hev & Hshape & Hnone & Hsome)%rule_applies_event.
    destruct (latest_event_add inv a (Some r) otap ts ev Hev) as [Hok Hlast].
    exists ev. done.
  - intros [Hev|(ev & Hev & Hshape)]%off_rule_event.
    + left. by rewrite (add_raise _ _ _ _ _ _ Hev).
    + right. exists ev.
      destruct (latest_event_add inv a (Some r) otap ts ev Hev) as [Hok Hlast].
      done.
Qed.

Lemma add_event_shape_witness :
  ∃ ev,
    (Inventory.add session_plain 1 (Some [0; -70]) (Some [3; 5]) (Some 100)).2
      = Ok tt
    ∧ latest_event
        (Inventory.add session_plain 1 (Some [0; -70]) (Some [3; 5])
           (Some 100)).1 1
      = Some ev
    ∧ Inventory.shape ev = Inventory.Both.
Proof.
  destruct (proj1 (add_event_shape session_plain 1 [0; -70] (Some [3; 5])
                     (Some 100)))
    as (ev & Hok & Hlast & Hshape & _).
  - split; [|split].
    + right. apply Exists_cons. right. apply Exists_cons. by left.
    + intros _. cbn. split; discriminate.
    + discriminate.
  - exists ev. done.
Defined.

(** The claim C1 as stated fails. With RSS samples and the OTAP sequence
    [0; 3] both supplied, the stored event is RSS-only (no [otap],
    [otap_min], [otap_max]); with an empty [rss] and [otap_sequence] left at
    [None] the call raises; with the RSS sample [0] and the OTAP sequence
    [3] both supplied the event is OTAP-only; with an empty [rss] and the
    OTAP sequence [0] the event has the neither shape, without [otap_min]
    and [otap_max]. *)
Lemma add_event_shape_counterexample :
  latest_event (Inventory.add session_plain 1 (Some [5]) (Some [0; 3]) None).1 1
    = Some (Inventory.EvRss (Some [5]))
  ∧ shape_by_supplied (Some [5]) (Some [0; 3]) = Inventory.Both
  ∧ (Inventory.add session_plain 1 (Some []) None None).2 = Raise TypeError
  ∧ latest_event (Inventory.add session_plain 1 (Some [0]) (Some [3]) None).1 1
    = Some (Inventory.EvOtap (Some [3]) 3 3)
  ∧ shape_by_supplied (Some [0]) (Some [3]) = Inventory.Both
  ∧ latest_event (Inventory.add session_plain 1 (Some []) (Some [0]) None).1 1
    = Some (Inventory.EvNeither (Some []) (Some [0]))
  ∧ shape_by_supplied (Some []) (Some [0]) = Inventory.OtapOnly.
Proof. vm_compute. repeat split. Qed.

(** ** Deadline and coverage *)

(** C8. With a deadline set, [is_out_of_time] returns, and returns [True]
    exactly when the clock reading is at or after the deadline: [False] one
    second before it, [True] at the deadline and at every later instant. *)
Theorem is_out_of_time_inclusive :
  ∀ (inv : Inventory.t) (deadline now : Z),
    Inventory._deadline inv = Some deadline →
    Inventory.is_out_of_time inv now = Ok (bool_decide (deadline ≤ now))
    ∧ (Inventory.is_out_of_time inv now = Ok true ↔ deadline ≤ now)
    ∧ Inventory.is_out_of_time inv (deadline - 1000000) = Ok false
    ∧ Inventory.is_out_of_time inv deadline = Ok true
    ∧ (∀ later, deadline ≤ later → Inventory.is_out_of_time inv later = Ok true).
Proof.
  intros inv deadline now Hd.
  assert (∀ t, Inventory.is_out_of_time inv t = Ok (bool_decide (deadline ≤ t)))
    as Hall.
  { intros t. unfold Inventory.is_out_of_time. rewrite Hd. cbn.
    case_bool_decide; destruct (Z.leb_spec (deadline - t) 0); done || lia. }
  split; [apply Hall|]. split; [|split; [|split]].
  - rewrite Hall. case_bool_decide; split; done || by intros [=].
  - rewrite Hall. by rewrite bool_decide_eq_false_2 by lia.
  - rewrite Hall. by rewrite bool_decide_eq_true_2 by lia.
  - intros later Hlater. rewrite Hall. by rewrite bool_decide_eq_true_2.
Qed.

Lemma is_out_of_time_inclusive_witness :
  Inventory.is_out_of_time (Inventory.wait session_plain 500).1 10000499
    = Ok (bool_decide (10000500 ≤ 10000499))
  ∧ (Inventory.is_out_of_time (Inventory.wait session_plain 500).1 10000499
       = Ok true ↔ 10000500 ≤ 10000499)
  ∧ Inventory.is_out_of_time (Inventory.wait session_plain 500).1
      (10000500 - 1000000) = Ok false
  ∧ Inventory.is_out_of_time (Inventory.wait session_plain 500).1 10000500
      = Ok true
  ∧ (∀ later, 10000500 ≤ later →
       Inventory.is_out_of_time (Inventory.wait session_plain 500).1 later
         = Ok true).
Proof.
  apply (is_out_of_time_inclusive
           (Inventory.wait session_plain 500).1 10000500 10000499).
  reflexivity.
Defined.

(** C2, as amended. [is_complete] returns [True] exactly when
    [target_nodes] is not empty, [target_frequency] is unbounded,
    [target_otap_sequence] is unset or zero, and the observed nodes include
    every target node; with a finite [target_frequency] it returns [False]
    whatever has been observed. *)
Theorem is_complete_iff :
  ∀ (inv : Inventory.t) (now : Z),
    (Inventory.is_complete inv now = Ok true ↔
       Inventory._target_nodes inv ≠ ∅
       ∧ Inventory._target_frequency inv = Inventory.Inf
       ∧ (Inventory._target_otap_sequence inv = None
          ∨ Inventory._target_otap_sequence inv = Some 0)
       ∧ Inventory._target_nodes inv ⊆ Inventory._nodes inv)
    ∧ (∀ n, Inventory._target_frequency inv = Inventory.Finite n →
            Inventory.is_complete inv now = Ok false).
Proof.
  intros inv now. unfold Inventory.is_complete, Inventory.truthy_set,
    Inventory.issuperset, Inventory.elapsed. split.
  - destruct (Inventory._target_frequency inv) as [n|]; cbn.
    { rewrite orb_true_r. split; [done|]. by intros (_ & ? & _). }
    rewrite orb_false_r, negb_involutive.
    case_bool_decide as Hempty; cbn.
    { split; [done|]. by intros (? & _). }
    case_bool_decide as Hsub.
    + destruct (Inventory._target_otap_sequence inv) as [z|] eqn:Ht; cbn.
      * unfold truthy_int. destruct (Z.eqb_spec z 0) as [->|Hz]; cbn.
        -- split; [|done]. intros _. repeat split; eauto.
        -- split; [done|]. intros (_ & _ & [?|?] & _); congruence.
      * split; [|done]. intros _. repeat split; eauto.
    + destruct (Inventory._start inv); cbn; split; try done;
        by intros (_ & _ & _ & ?).
  - intros n ->. cbn. by rewrite orb_true_r.
Qed.

(** The claim C2 as stated fails: with [target_otap_sequence] set to [0]
    the session is still reported complete. *)
Lemma is_complete_counterexample :
  Inventory._target_otap_sequence
    (Inventory.add session_otap_zero 1 (Some [5]) None None).1 = Some 0
  ∧ Inventory.is_complete
      (Inventory.add session_otap_zero 1 (Some [5]) None None).1 0 = Ok true.
Proof. vm_compute. split; reflexivity. Qed.

(** ** OTAP completion *)

Lemma otaped_step_spec (t : Z) (acc : gset Z) (a : Z) (r : Inventory.NodeRecord) :
  Inventory.events r ≠ [] →
  ∃ b : bool,
    Inventory.otaped_step (Some t) acc (a, r)
      = Ok (if b then {[a]} ∪ acc else acc)
    ∧ (b = true ↔ otaped_at t r).
Proof.
  intros Hne. apply last_is_Some in Hne as [ev Hlast].
  unfold Inventory.otaped_step, otaped_at, last_item. rewrite Hlast. cbn.
  destruct ev as [rss otap mx mn|rss|otap mx mn|rss otap]; cbn.
  - destruct (Z.eqb_spec mn t) as [->|Hmn]; cbn.
    + exists true. split; [done|]. split; [|done]. intros _. eauto.
    + destruct (Z.eqb_spec mx t) as [->|Hmx]; cbn.
      * exists true. split; [done|]. split; [|done]. intros _.
        eexists. split; [done|]. by right.
      * exists false. split; [done|]. split; [done|].
        intros (ev & [= <-] & [[= ?]|[= ?]]); done.
  - exists false. split; [done|]. split; [done|].
    intros (ev & [= <-] & [[= ]|[= ]]).
  - destruct (Z.eqb_spec mn t) as [->|Hmn]; cbn.
    + exists true. split; [done|]. split; [|done]. intros _. eauto.
    + destruct (Z.eqb_spec mx t) as [->|Hmx]; cbn.
      * exists true. split; [done|]. split; [|done]. intros _.
        eexists. split; [done|]. by right.
      * exists false. split; [done|]. split; [done|].
        intros (ev & [= <-] & [[= ?]|[= ?]]); done.
  - exists false. split; [done|]. split; [done|].
    intros (ev & [= <-] & [[= ]|[= ]]).
Qed.

Lemma for_each_otaped (t : Z) (l : list (Z * Inventory.NodeRecord)) :
  ∀ acc : gset Z,
    (∀ a r, (a, r) ∈ l → Inventory.events r ≠ []) →
    ∃ S : gset Z,
      for_each (Inventory.otaped_step (Some t)) l acc = Ok S
      ∧ ∀ a, a ∈ S ↔ a ∈ acc ∨ ∃ r, (a, r) ∈ l ∧ otaped_at t r.
Proof.
  induction l as [|[a r] l IH]; intros acc Hne.
  - exists acc. split; [done|]. intros a. split; [eauto|].
    intros [?|(r & Hin & _)]; [done|]. by apply elem_of_nil in Hin.
  - destruct (otaped_step_spec t acc a r) as (b & Hstep & Hb).
    { apply (Hne a). by left. }
    destruct (IH (if b then {[a]} ∪ acc else acc)) as (S & Hrun & HS).
    { intros a' r' Hin. apply (Hne a'). by right. }
    exists S. cbn [for_each]. rewrite Hstep. split; [done|].
    intros a'. rewrite HS. split.
    + intros [Hacc|(r' & Hin & Hat)].
      * destruct b; [|by left].
        apply elem_of_union in Hacc as [->%elem_of_singleton|?]; [|by left].
        right. exists r. split; [by left|]. by apply Hb.
      * right. exists r'. split; [by right|done].
    + intros [Hacc|(r' & Hin & Hat)].
      * left. destruct b; [|done]. apply elem_of_union. by right.
      * apply elem_of_cons in Hin as [[= -> ->]|Hin].
        -- left. apply Hb in Hat as ->. apply elem_of_union. left.
           by apply elem_of_singleton.
        -- right. eauto.
Qed.

Lemma otaped_nodes_spec (inv : Inventory.t) (t : Z) :
  wf inv →
  Inventory._target_otap_sequence inv = Some t →
  ∃ S : gset Z,
    Inventory.otaped_nodes inv = Ok S
    ∧ ∀ a, a ∈ S ↔ ∃ r, Inventory._index inv !! a = Some r ∧ otaped_at t r.
Proof.
  intros Hwf Ht. unfold Inventory.otaped_nodes. rewrite Ht.
  destruct (for_each_otaped t (map_to_list (Inventory._index inv)) ∅)
    as (S & Hrun & HS).
  { intros a r Hin. apply elem_of_map_to_list in Hin. by eapply Hwf. }
  exists S. split; [done|]. intros a. rewrite HS. split.
  - intros [Hin|(r & Hin & Hat)]; [by apply not_elem_of_empty in Hin|].
    exists r. split; [|done]. by apply elem_of_map_to_list.
  - intros (r & Hr & Hat). right. exists r. split; [|done].
    by apply elem_of_map_to_list.
Qed.

Lemma latest_event_otaped (inv : Inventory.t) (a t : Z) :
  (∃ r, Inventory._index inv !! a = Some r ∧ otaped_at t r) ↔
  (∃ ev, latest_event inv a = Some ev
         ∧ (Inventory.get_otap_min ev = Ok t ∨ Inventory.get_otap_max ev = Ok t)).
Proof.
  unfold latest_event, otaped_at. split.
  - intros (r & -> & ev & Hlast & H). exists ev. by split.
  - intros (ev & Hlast & H).
    destruct (Inventory._index inv !! a) as [r|]; [|done].
    exists r. split; [done|]. exists ev. by split.
Qed.

Lemma is_otaped_latest (inv : Inventory.t) (now : Z) :
  wf inv →
  Inventory.is_otaped inv now = Ok true ↔
    Inventory._target_nodes inv ≠ ∅
    ∧ ∃ t, Inventory._target_otap_sequence inv = Some t
           ∧ ∀ a, a ∈ Inventory._target_nodes inv →
                  ∃ ev, latest_event inv a = Some ev
                        ∧ (Inventory.get_otap_min ev = Ok t
                           ∨ Inventory.get_otap_max ev = Ok t).
Proof.
  intros Hwf.
  unfold Inventory.is_otaped, Inventory.truthy_set, Inventory.issuperset.
  rewrite negb_involutive.
  case_bool_decide as Hempty; cbn.
  { split; [done|]. by intros (? & _). }
  destruct (Inventory._target_otap_sequence inv) as [t|] eqn:Ht; cbn.
  2: { split; [done|]. by intros (_ & ? & ? & _). }
  destruct (otaped_nodes_spec inv t Hwf Ht) as (S & -> & HS). cbn.
  case_bool_decide as Hsub; cbn.
  - split; [|done]. intros _. split; [done|]. exists t. split; [done|].
    intros a Ha. apply latest_event_otaped, HS, Hsub, Ha.
  - split.
    + destruct (Inventory.elapsed inv now); cbn; done.
    + intros (_ & t' & [= <-] & Hall). exfalso. apply Hsub.
      intros a Ha. apply HS, latest_event_otaped, Hall, Ha.
Qed.

(** C3. In a session whose records all hold an event (as [add] leaves
    them), [is_otaped] returns [True] exactly when [target_nodes] is not
    empty, [target_otap_sequence] is set, and every target node has a latest
    event whose [otap_min] or [otap_max] equals the target. Earlier events
    do not enter: two sessions with the same targets and the same latest
    events get the same answer. In particular the answer is [True] for
    targets [{1, 2}] and OTAP target [7] when node 1 was last seen with
    [otap_max = 7] and node 2 with [otap_min = 7]. *)
Theorem is_otaped_iff :
  ∀ (inv : Inventory.t) (now : Z),
    wf inv →
    (Inventory.is_otaped inv now = Ok true ↔
       Inventory._target_nodes inv ≠ ∅
       ∧ ∃ t, Inventory._target_otap_sequence inv = Some t
              ∧ ∀ a, a ∈ Inventory._target_nodes inv →
                     ∃ ev, latest_event inv a = Some ev
                           ∧ (Inventory.get_otap_min ev = Ok t
                              ∨ Inventory.get_otap_max ev = Ok t))
    ∧ (∀ inv' now',
         wf inv' →
         Inventory._target_nodes inv' = Inventory._target_nodes inv →
         Inventory._target_otap_sequence inv'
           = Inventory._target_otap_sequence inv →
         (∀ a, latest_event inv' a = latest_event inv a) →
         (Inventory.is_otaped inv' now' = Ok true
          ↔ Inventory.is_otaped inv now = Ok true))
    ∧ (Inventory._target_nodes inv = {[1; 2]} →
       Inventory._target_otap_sequence inv = Some 7 →
       (∃ ev, latest_event inv 1 = Some ev ∧ Inventory.get_otap_max ev = Ok 7) →
       (∃ ev, latest_event inv 2 = Some ev ∧ Inventory.get_otap_min ev = Ok 7) →
       Inventory.is_otaped inv now = Ok true).
Proof.
  intros inv now Hwf. split; [by apply is_otaped_latest|]. split.
  - intros inv' now' Hwf' Htn Ht Hlatest.
    rewrite (is_otaped_latest inv' now' Hwf'), (is_otaped_latest inv now Hwf).
    rewrite Htn, Ht. by setoid_rewrite Hlatest.
  - intros Htn Ht (ev1 & H1 & Hmax) (ev2 & H2 & Hmin).
    apply (is_otaped_latest inv now Hwf). split.
    { rewrite Htn. apply (non_empty_inhabited_L 1), elem_of_union_l.
      by apply elem_of_singleton. }
    exists 7. split; [done|]. intros a Ha. rewrite Htn in Ha.
    apply elem_of_union in Ha as [->%elem_of_singleton| ->%elem_of_singleton].
    + exists ev1. split; [done|]. by right.
    + exists ev2. split; [done|]. by left.
Qed.

Lemma is_otaped_iff_witness : Inventory.is_otaped session_otaped 0 = Ok true.
Proof.
  refine (proj2 (proj2 (is_otaped_iff session_otaped 0 _)) _ _ _ _).
  - apply add_all_wf, init_wf.
  - reflexivity.
  - reflexivity.
  - exists (Inventory.EvBoth (Some [-62]) (Some [3; 7]) 7 3).
    split; reflexivity.
  - exists (Inventory.EvOtap (Some [7; 9]) 9 7). split; reflexivity.
Defined.

(** ** Frequencies *)

Section dict_facts.
Context {K V : Type} `{EqDecision K}.

Lemma dict_mem_elem_of (d : list (K * V)) (k : K) :
  dict_mem d k = true ↔ k ∈ d.*1.
Proof.
  induction d as [|[k' v] d IH]; cbn.
  - split; [done|]. intros Hin. by apply elem_of_nil in Hin.
  - rewrite elem_of_cons. case_decide as Hk.
    + split; [by left|done].
    + rewrite IH. split; [by right|]. intros [?|?]; [congruence|done].
Qed.

Lemma dict_set_fresh (d : list (K * V)) (k : K) (v : V) :
  k ∉ d.*1 → dict_set d k v = d ++ [(k, v)].
Proof.
  induction d as [|[k' v'] d IH]; cbn; intros Hk; [done|].
  apply not_elem_of_cons in Hk as [Hne Hk].
  case_decide; [congruence|]. by rewrite IH.
Qed.
End dict_facts.

Lemma for_each_raise {A S : Type} (body : S → A → result S) (e : Exn)
    (l : list A) :
  ∀ acc,
    (∀ acc x, x ∈ l → (∃ acc', body acc x = Ok acc') ∨ body acc x = Raise e) →
    (∃ x, x ∈ l ∧ ∀ acc, body acc x = Raise e) →
    for_each body l acc = Raise e.
Proof.
  induction l as [|y l IH]; intros acc Hstep (x & Hin & Hx).
  - by apply elem_of_nil in Hin.
  - cbn. apply elem_of_cons in Hin as [->|Hin]; [by rewrite Hx|].
    destruct (Hstep acc y) as [[acc' Hb]|Hb]; [by left| |];
      rewrite Hb; [|done].
    apply IH; [|eauto]. intros acc0 z Hz. apply Hstep. by right.
Qed.

(** The loop of [frequency], over nodes that are new to the dict and whose
    value can be read. *)
Lemma for_each_frequency (inv : Inventory.t) (f : Z → Z) (l : list Z) :
  ∀ d : list (Z * Z),
    NoDup l →
    (∀ a, a ∈ l → a ∉ d.*1) →
    (∀ a, a ∈ l → Inventory.node_value inv a = Ok (f a)) →
    for_each (λ frequency node,
                v ← Inventory.node_value inv node;
                Ok (dict_set frequency node v)) l d
      = Ok (d ++ map (λ a, (a, f a)) l).
Proof.
  induction l as [|a l IH]; intros d Hnd Hfresh Hval; cbn.
  - by rewrite app_nil_r.
  - apply NoDup_cons in Hnd as [Ha Hnd].
    rewrite (Hval a) by by left. cbn.
    rewrite dict_set_fresh by (apply Hfresh; by left).
    rewrite IH; [by rewrite <- app_assoc|done| |].
    + intros b Hb. rewrite fmap_app. cbn. rewrite elem_of_app.
      intros [Hin|Hin%list_elem_of_singleton].
      * by apply (Hfresh b); [right|].
      * by subst b.
    + intros b Hb. apply Hval. by right.
Qed.

Lemma filter_agree {A : Type} (P Q : A → Prop)
    `{∀ x, Decision (P x)} `{∀ x, Decision (Q x)} (l : list A) :
  (∀ x, x ∈ l → P x ↔ Q x) → filter P l = filter Q l.
Proof.
  induction l as [|x l IH]; intros Hagree; [done|].
  rewrite !filter_cons.
  assert (filter P l = filter Q l) as ->.
  { apply IH. intros y Hy. apply Hagree. by right. }
  destruct (decide (P x)) as [HP|HP], (decide (Q x)) as [HQ|HQ]; try done;
    exfalso; apply (Hagree x) in HP || apply (Hagree x) in HQ;
    done || by left.
Qed.

(** The loop of [_account_for_target_nodes]. *)
Lemma foldl_account (l : list Z) :
  ∀ d : list (Z * Z),
    NoDup l →
    foldl (λ d node, if negb (dict_mem d node) then dict_set d node 0 else d) d l
      = d ++ map (λ a, (a, 0)) (filter (λ a, a ∉ d.*1) l).
Proof.
  induction l as [|a l IH]; intros d Hnd.
  - cbn. by rewrite app_nil_r.
  - apply NoDup_cons in Hnd as [Ha Hnd]. rewrite filter_cons. cbn [foldl].
    destruct (dict_mem d a) eqn:Hmem; cbn [negb].
    + apply dict_mem_elem_of in Hmem. rewrite decide_False by eauto.
      by apply IH.
    + assert (a ∉ d.*1) as Hfresh.
      { intros Hin. apply dict_mem_elem_of in Hin. congruence. }
      rewrite decide_True by done. rewrite dict_set_fresh by done.
      rewrite IH by done. rewrite <- app_assoc. cbn. do 3 f_equal.
      apply filter_agree. intros b Hb. rewrite fmap_app. cbn.
      rewrite elem_of_app, list_elem_of_singleton.
      split; [intros Hnot ?; apply Hnot; by left|].
      intros Hnot [?|?]; [done|]. by subst b.
Qed.

Lemma sorted_elem_of (l : list Z) (a : Z) : a ∈ sorted l ↔ a ∈ l.
Proof. unfold sorted. by rewrite merge_sort_Permutation. Qed.

Lemma sorted_NoDup (l : list Z) : NoDup l → NoDup (sorted l).
Proof. unfold sorted. by rewrite merge_sort_Permutation. Qed.

Lemma sorted_strictly (l : list Z) : NoDup l → StronglySorted Z.lt (sorted l).
Proof.
  intros Hnd. apply sorted_NoDup in Hnd.
  assert (StronglySorted Z.le (sorted l)) as Hs.
  { apply Sorted_StronglySorted; [apply _|]. apply Sorted_merge_sort.
    apply _. }
  induction Hs as [|x l' Hs IH Hall]; [constructor|].
  apply NoDup_cons in Hnd as [Hx Hnd]. constructor; [by apply IH|].
  rewrite Forall_forall in Hall. apply Forall_forall. intros y Hy.
  specialize (Hall y Hy). assert (x ≠ y) by (by intros ->). lia.
Qed.

Lemma node_value_ok (inv : Inventory.t) (a : Z) :
  a ∈ dom (Inventory._index inv) →
  (truthy_opt_int (Inventory._target_otap_sequence inv) = true →
   ∃ ev m, latest_event inv a = Some ev ∧ Inventory.get_otap_max ev = Ok m) →
  Inventory.node_value inv a = Ok (frequency_value inv a).
Proof.
  intros [r Hr]%elem_of_dom Hmax.
  unfold Inventory.node_value, frequency_value, Inventory.index_get, count_of.
  destruct (truthy_opt_int _); rewrite ?Hr; cbn; [|done].
  destruct Hmax as (ev & m & Hlast & Hm); [done|]. rewrite Hlast, Hm.
  unfold latest_event in Hlast. rewrite Hr in Hlast. cbn in Hlast.
  unfold last_item. rewrite Hlast. by cbn.
Qed.

Lemma fmap_fst_graph {A B : Type} (f : A → B) (l : list A) :
  (map (λ a, (a, f a)) l).*1 = l.
Proof. induction l as [|a l IH]; cbn; [done|]. by rewrite IH. Qed.

(** What [frequency] returns when every value can be read. *)
Lemma frequency_eq (inv : Inventory.t) :
  (truthy_opt_int (Inventory._target_otap_sequence inv) = true →
   ∀ a, a ∈ dom (Inventory._index inv) →
        ∃ ev m, latest_event inv a = Some ev ∧ Inventory.get_otap_max ev = Ok m) →
  Inventory.frequency inv =
    Ok (map (λ a, (a, frequency_value inv a))
            (sorted (elements (dom (Inventory._index inv))))
        ++ map (λ a, (a, 0))
               (filter (λ a, a ∉ sorted (elements (dom (Inventory._index inv))))
                       (elements (Inventory._target_nodes inv)))).
Proof.
  intros Hmax. unfold Inventory.frequency.
  rewrite (for_each_frequency inv (frequency_value inv)).
  - cbn. unfold Inventory._account_for_target_nodes, Inventory.truthy_set.
    case_bool_decide as Hempty; cbn.
    + rewrite Hempty, elements_empty. cbn. by rewrite app_nil_r.
    + rewrite foldl_account by apply NoDup_elements.
      by rewrite fmap_fst_graph.
  - apply sorted_NoDup, NoDup_elements.
  - intros a _ Hin. by apply elem_of_nil in Hin.
  - intros a Ha%sorted_elem_of%elem_of_elements. apply node_value_ok; [done|].
    intros Ht. by apply Hmax.
Qed.

(** C4, as amended. When the values can be read (the OTAP target is unset
    or zero, or the latest event of every record carries [otap_max]),
    [frequency] returns a mapping that lists first the nodes that have a
    record in [_index] (those for which a call of [add] returned), in
    strictly ascending address order, each with the [otap_max] of its latest
    event when the OTAP target is set and not zero and with its count
    otherwise; the target nodes without a record follow them, each once and
    mapped to [0]. An address of [_nodes] that has no record, every call of
    [add] for it having raised, is listed with [0] if it is a target node
    and is not listed otherwise. *)
Theorem frequency_recorded_then_missing :
  ∀ inv : Inventory.t,
    (truthy_opt_int (Inventory._target_otap_sequence inv) = true →
     ∀ a, a ∈ dom (Inventory._index inv) →
          ∃ ev m, latest_event inv a = Some ev
                  ∧ Inventory.get_otap_max ev = Ok m) →
    ∃ recorded missing : list (Z * Z),
      Inventory.frequency inv = Ok (recorded ++ missing)
      ∧ StronglySorted Z.lt recorded.*1
      ∧ (∀ a, a ∈ recorded.*1 ↔ a ∈ dom (Inventory._index inv))
      ∧ (∀ a v, (a, v) ∈ recorded →
           if truthy_opt_int (Inventory._target_otap_sequence inv)
           then ∃ ev, latest_event inv a = Some ev
                      ∧ Inventory.get_otap_max ev = Ok v
           else ∃ r, Inventory._index inv !! a = Some r
                     ∧ v = Inventory.count r)
      ∧ NoDup missing.*1
      ∧ (∀ a, a ∈ missing.*1 ↔
           a ∈ Inventory._target_nodes inv ∧ a ∉ dom (Inventory._index inv))
      ∧ (∀ a v, (a, v) ∈ missing → v = 0)
      ∧ (∀ a, a ∈ Inventory._nodes inv → a ∉ dom (Inventory._index inv) →
           if bool_decide (a ∈ Inventory._target_nodes inv)
           then (a, 0) ∈ missing
           else a ∉ (recorded ++ missing).*1).
Proof.
  intros inv Hmax. eexists _, _. split; [by apply frequency_eq|].
  rewrite fmap_app, !fmap_fst_graph.
  split; [|split; [|split; [|split; [|split; [|split]]]]].
  - apply sorted_strictly, NoDup_elements.
  - intros a. by rewrite sorted_elem_of, elem_of_elements.
  - intros a v (a' & [= -> ->] & Ha%sorted_elem_of%elem_of_elements)%list_elem_of_fmap.
    unfold frequency_value, count_of.
    destruct (truthy_opt_int _) eqn:Ht.
    + destruct (Hmax eq_refl a' Ha) as (ev & m & Hlast & Hm).
      exists ev. by rewrite Hlast, Hm.
    + apply elem_of_dom in Ha as [r Hr]. exists r. by rewrite Hr.
  - apply NoDup_filter, NoDup_elements.
  - intros a. rewrite list_elem_of_filter, sorted_elem_of, !elem_of_elements.
    tauto.
  - by intros a v (a' & [= -> ->] & _)%list_elem_of_fmap.
  - intros a _ Hrec. case_bool_decide as Ht.
    + apply list_elem_of_fmap. exists a. split; [done|].
      apply list_elem_of_filter. rewrite sorted_elem_of, !elem_of_elements.
      done.
    + rewrite elem_of_app, list_elem_of_filter, sorted_elem_of,
        !elem_of_elements. tauto.
Qed.

Lemma frequency_recorded_then_missing_witness :
  ∃ recorded missing : list (Z * Z),
    Inventory.frequency session_otaped = Ok (recorded ++ missing)
    ∧ StronglySorted Z.lt recorded.*1.
Proof.
  destruct (frequency_recorded_then_missing session_otaped)
    as (recorded & missing & Hfreq & Hsorted & _).
  - intros _ a Ha.
    assert (a = 1 ∨ a = 2) as [->| ->].
    { assert (dom (Inventory._index session_otaped) = {[1; 2]}) as Hdom
        by (vm_compute; reflexivity).
      rewrite Hdom in Ha.
      by apply elem_of_union in Ha as [?%elem_of_singleton|?%elem_of_singleton];
        [left|right]. }
    + exists (Inventory.EvBoth (Some [-62]) (Some [3; 7]) 7 3), 7.
      split; reflexivity.
    + exists (Inventory.EvOtap (Some [7; 9]) 9 7), 9. split; reflexivity.
  - exists recorded, missing. by split.
Defined.

(** The claim C4 as stated fails: the mapping is not in ascending address
    order when an unseen target node has a smaller address than an observed
    node; an OTAP target set to [0] makes it report counts; and an observed
    node that is not a target is left out of the mapping when the calls of
    [add] for it raised. *)
Lemma frequency_counterexample :
  Inventory.frequency session_unseen_target = Ok [(5, 1); (1, 0)]
  ∧ Inventory._target_otap_sequence
      (Inventory.add session_otap_zero 1 (Some []) (Some [0; 9]) None).1 = Some 0
  ∧ latest_event
      (Inventory.add session_otap_zero 1 (Some []) (Some [0; 9]) None).1 1
    = Some (Inventory.EvOtap (Some [0; 9]) 9 0)
  ∧ Inventory.frequency
      (Inventory.add session_otap_zero 1 (Some []) (Some [0; 9]) None).1
    = Ok [(1, 1)]
  ∧ Inventory._nodes session_raised_non_target = {[5; 9]}
  ∧ Inventory.frequency session_raised_non_target = Ok [(5, 1); (1, 0)].
Proof. vm_compute. repeat split. Qed.

(** ** A latest event without [otap_max] *)

Lemma get_otap_max_cases (ev : Inventory.Event) :
  (∃ m, Inventory.get_otap_max ev = Ok m)
  ∨ Inventory.get_otap_max ev = Raise KeyError.
Proof. destruct ev; cbn; eauto. Qed.

Lemma get_otap_max_lacking (ev : Inventory.Event) :
  Inventory.shape ev = Inventory.RssOnly ∨ Inventory.shape ev = Inventory.Neither →
  Inventory.get_otap_max ev = Raise KeyError.
Proof. destruct ev; cbn; intros [?|?]; done. Qed.

Lemma dict_get_cases {V : Type} (d : list (Z * V)) (k : Z) :
  (∃ v, dict_get d k = Ok v) ∨ dict_get d k = Raise KeyError.
Proof.
  induction d as [|[k' v] d IH]; cbn; [by right|].
  case_decide; eauto.
Qed.

Lemma wf_latest_event (inv : Inventory.t) (a : Z) :
  wf inv → a ∈ dom (Inventory._index inv) → ∃ ev, latest_event inv a = Some ev.
Proof.
  intros Hwf [r Hr]%elem_of_dom. unfold latest_event. rewrite Hr. cbn.
  apply last_is_Some. by eapply Hwf.
Qed.

Lemma node_value_otap (inv : Inventory.t) (a : Z) (ev : Inventory.Event) :
  truthy_opt_int (Inventory._target_otap_sequence inv) = true →
  latest_event inv a = Some ev →
  Inventory.node_value inv a = Inventory.get_otap_max ev.
Proof.
  intros Ht Hlast. unfold Inventory.node_value, Inventory.index_get.
  rewrite Ht. unfold latest_event in Hlast.
  destruct (Inventory._index inv !! a) as [r|]; [|done]. cbn in *.
  unfold last_item. by rewrite Hlast.
Qed.

Lemma node_value_cases (inv : Inventory.t) (a : Z) :
  wf inv →
  truthy_opt_int (Inventory._target_otap_sequence inv) = true →
  a ∈ dom (Inventory._index inv) →
  (∃ v, Inventory.node_value inv a = Ok v)
  ∨ Inventory.node_value inv a = Raise KeyError.
Proof.
  intros Hwf Ht Ha. destruct (wf_latest_event inv a Hwf Ha) as [ev Hlast].
  rewrite (node_value_otap inv a ev Ht Hlast). apply get_otap_max_cases.
Qed.

Lemma latest_event_dom (inv : Inventory.t) (a : Z) (ev : Inventory.Event) :
  latest_event inv a = Some ev → a ∈ dom (Inventory._index inv).
Proof.
  unfold latest_event. intros Hlast. apply elem_of_dom.
  by destruct (Inventory._index inv !! a).
Qed.

(** C10, as amended. When [target_otap_sequence] is set to a truthy value
    and the latest event of some observed node lacks [otap_max] (an RSS-only
    or neither-shape event), [frequency] and [frequency_by_value] raise
    [KeyError]; [is_frequency_reached] raises [KeyError] when [target_nodes]
    is not empty, and returns [False] without reading any event when
    [target_nodes] is empty. *)
Theorem frequency_KeyError :
  ∀ inv : Inventory.t,
    wf inv →
    truthy_opt_int (Inventory._target_otap_sequence inv) = true →
    (∃ a ev, latest_event inv a = Some ev
             ∧ (Inventory.shape ev = Inventory.RssOnly
                ∨ Inventory.shape ev = Inventory.Neither)) →
    Inventory.frequency inv = Raise KeyError
    ∧ Inventory.frequency_by_value inv = Raise KeyError
    ∧ (Inventory._target_nodes inv ≠ ∅ →
       Inventory.is_frequency_reached inv = Raise KeyError)
    ∧ (Inventory._target_nodes inv = ∅ →
       Inventory.is_frequency_reached inv = Ok false).
Proof.
  intros inv Hwf Ht (a & ev & Hlast & Hshape).
  assert (a ∈ sorted (elements (dom (Inventory._index inv)))) as Ha.
  { apply sorted_elem_of, elem_of_elements. by eapply latest_event_dom. }
  assert (Inventory.node_value inv a = Raise KeyError) as Hbad.
  { rewrite (node_value_otap inv a ev Ht Hlast).
    by apply get_otap_max_lacking. }
  assert (Inventory.frequency inv = Raise KeyError) as Hfreq.
  { unfold Inventory.frequency.
    rewrite (for_each_raise _ KeyError); [done| |].
    - intros acc x Hx%sorted_elem_of%elem_of_elements.
      destruct (node_value_cases inv x Hwf Ht Hx) as [[v ->]| ->]; cbn; eauto.
    - exists a. split; [done|]. intros acc. by rewrite Hbad. }
  split; [done|]. split; [|split].
  - unfold Inventory.frequency_by_value.
    rewrite (for_each_raise _ KeyError); [done| |].
    + intros [fr mx] x Hx%sorted_elem_of%elem_of_elements.
      destruct (node_value_cases inv x Hwf Ht Hx) as [[v ->]| ->]; cbn; eauto.
      match goal with |- context [dict_get ?d v] =>
        destruct (dict_get_cases d v) as [[s ->]| ->] end; cbn; eauto.
    + exists a. split; [done|]. intros [fr mx]. by rewrite Hbad.
  - intros Hne. unfold Inventory.is_frequency_reached, Inventory.truthy_set.
    rewrite bool_decide_eq_false_2 by done. cbn. by rewrite Hfreq.
  - intros Hempty. unfold Inventory.is_frequency_reached, Inventory.truthy_set.
    by rewrite bool_decide_eq_true_2 by done.
Qed.

Lemma frequency_KeyError_witness :
  Inventory.frequency session_rss_only_targets = Raise KeyError
  ∧ Inventory.frequency_by_value session_rss_only_targets = Raise KeyError
  ∧ (Inventory._target_nodes session_rss_only_targets ≠ ∅ →
     Inventory.is_frequency_reached session_rss_only_targets = Raise KeyError)
  ∧ (Inventory._target_nodes session_rss_only_targets = ∅ →
     Inventory.is_frequency_reached session_rss_only_targets = Ok false).
Proof.
  apply (frequency_KeyError session_rss_only_targets).
  - apply add_wf, init_wf.
  - reflexivity.
  - exists 1, (Inventory.EvRss (Some [-70])). split; [reflexivity|by left].
Defined.

(** The claim C10 as stated fails for [is_frequency_reached]: without
    target nodes it returns [False], although the OTAP target is truthy and
    the only observed node has an RSS-only latest event (on which
    [frequency] does raise). *)
Lemma frequency_KeyError_counterexample :
  Inventory._target_otap_sequence session_rss_only = Some 7
  ∧ latest_event session_rss_only 5 = Some (Inventory.EvRss (Some [-70]))
  ∧ Inventory.frequency session_rss_only = Raise KeyError
  ∧ Inventory.is_frequency_reached session_rss_only = Ok false.
Proof. vm_compute. repeat split. Qed.

(** ** The message router *)

Lemma call_issued (mysql : MySQLObserver.MySQL) (w : MySQLObserver.Write)
    (message : MySQLObserver.Message) :
  MySQLObserver.issued (MySQLObserver.call mysql w message).1
    = MySQLObserver.issued mysql ++ [(w, message)].
Proof. reflexivity. Qed.

(** C5, as amended. [_map_message] issues the generic "received" write
    first, whatever the kind of the item. When that write raises, the error
    is passed on and no other write is issued. When it returns, exactly the
    write the kind-to-handler table gives for the kind of the item follows,
    and none for a kind without an entry. The source selects that write by
    a chain of [isinstance] tests; the chain computes the same as the
    lookup in the table, which has an entry for each of the seven kinds. *)
Theorem map_message_routes :
  ∀ (mysql : MySQLObserver.MySQL) (message : MySQLObserver.Message),
    MySQLObserver._map_message mysql message
      = MySQLObserver.route_by_table mysql message
    ∧ (∃ rest,
         MySQLObserver.issued (MySQLObserver._map_message mysql message).1
           = MySQLObserver.issued mysql
             ++ (MySQLObserver.put_to_received_packets, message) :: rest
         ∧ rest =
             if MySQLObserver.refuses mysql
                  MySQLObserver.put_to_received_packets message
             then []
             else match MySQLObserver.handler_table (MySQLObserver.kind message) with
                  | Some w => [(w, message)]
                  | None => []
                  end)
    ∧ (MySQLObserver.refuses mysql
         MySQLObserver.put_to_received_packets message = true →
       (MySQLObserver._map_message mysql message).2
         = MySQLObserver.MySQLdbError)
    ∧ MySQLObserver.handler_table MySQLObserver.AdvertiserMessage
        = Some MySQLObserver.put_advertiser
    ∧ MySQLObserver.handler_table MySQLObserver.BootDiagnosticsMessage
        = Some MySQLObserver.put_boot_diagnostics
    ∧ MySQLObserver.handler_table MySQLObserver.NeighborDiagnosticsMessage
        = Some MySQLObserver.put_neighbor_diagnostics
    ∧ MySQLObserver.handler_table MySQLObserver.NodeDiagnosticsMessage
        = Some MySQLObserver.put_node_diagnostics
    ∧ MySQLObserver.handler_table MySQLObserver.TestNWMessage
        = Some MySQLObserver.put_testnw_measurements
    ∧ MySQLObserver.handler_table MySQLObserver.TrafficDiagnosticsMessage
        = Some MySQLObserver.put_traffic_diagnostics
    ∧ MySQLObserver.handler_table MySQLObserver.DiagnosticsMessage
        = Some MySQLObserver.put_diagnostics
    ∧ MySQLObserver.handler_table MySQLObserver.OtherMessage = None.
Proof.
  intros mysql [k a ts p].
  split; [|split; [|split; [|by repeat split]]].
  - unfold MySQLObserver._map_message, MySQLObserver.route_by_table,
      MySQLObserver.call, MySQLObserver.isinstance. cbn.
    destruct (MySQLObserver.refuses mysql _ _); [done|].
    by destruct k.
  - eexists. split; [|reflexivity].
    unfold MySQLObserver._map_message, MySQLObserver.call,
      MySQLObserver.isinstance. cbn.
    destruct (MySQLObserver.refuses mysql _ _); cbn; [done|].
    destruct k; repeat case_bool_decide; try done; cbn;
      by rewrite <- app_assoc.
  - intros Href. unfold MySQLObserver._map_message, MySQLObserver.call.
    cbn. by rewrite Href.
Qed.

(** The claim C5 as stated fails: on a backend that refuses the generic
    write, an Advertiser item, for which the table has a handler, gets the
    generic write and no write of its kind; the call ends in the error of
    the generic write. *)
Lemma map_message_routes_counterexample :
  MySQLObserver.handler_table
    (MySQLObserver.kind (message_of MySQLObserver.AdvertiserMessage 1))
    = Some MySQLObserver.put_advertiser
  ∧ MySQLObserver.issued
      (MySQLObserver._map_message mysql_no_received
         (message_of MySQLObserver.AdvertiserMessage 1)).1
    = [(MySQLObserver.put_to_received_packets,
        message_of MySQLObserver.AdvertiserMessage 1)]
  ∧ (MySQLObserver._map_message mysql_no_received
       (message_of MySQLObserver.AdvertiserMessage 1)).2
    = MySQLObserver.MySQLdbError.
Proof. vm_compute. repeat split. Qed.

(** ** The supervisor *)

(** The pool stores what [start()] returned: every entry of [workers] is
    [None]. *)
Lemma spawn_workers_None (n_workers : Z) :
  Forall (λ entry, entry.2 = None) (MySQLObserver.spawn_workers n_workers).
Proof.
  unfold MySQLObserver.spawn_workers. apply Forall_forall.
  by intros [seq worker] (pseq & [= -> ->] & _)%list_elem_of_fmap.
Qed.

(** On such a dict the first poll raises, whatever the workers do. *)
Lemma poll_None (w : MySQLObserver.World)
    (workers : list (Z * option MySQLObserver.Process)) :
  workers ≠ [] →
  Forall (λ entry, entry.2 = None) workers →
  MySQLObserver.poll w workers = Raise AttributeError.
Proof.
  destruct workers as [|[seq worker] rest]; [done|].
  intros _ [Hnone _]%Forall_cons. cbn in *. by subst worker.
Qed.

(** Over a dict that holds the [Process] objects themselves, the same loop
    does what its log line says: a dead worker makes the poll set
    [exit_signal]. *)
Lemma poll_detects_dead (w : MySQLObserver.World) (procs : list MySQLObserver.Process) :
  (∃ p, p ∈ procs ∧ MySQLObserver.alive w (MySQLObserver.pseq p) = false) →
  MySQLObserver.poll w (map (λ p, (MySQLObserver.pseq p, Some p)) procs) = Ok true.
Proof.
  induction procs as [|q procs IH]; intros (p & Hin & Hdead).
  - by apply elem_of_nil in Hin.
  - cbn. destruct (MySQLObserver.alive w (MySQLObserver.pseq q)) eqn:Hq; [|done].
    apply IH. exists p. split; [|done].
    apply elem_of_cons in Hin as [->|Hin]; [congruence|done].
Qed.

(** C6 (the code departs from it). With [n_workers = 3] and nobody asking
    for an exit, the first liveness poll of the supervisor raises
    [AttributeError], whichever workers are alive, and [exit_signal] is left
    unset. *)
Theorem supervisor_first_poll_crashes :
  ∀ (rounds : nat) (alive : nat → Z → bool),
    MySQLObserver.pool_on_data_received (S rounds)
      (λ i, MySQLObserver.mkWorld false (alive i)) 3
    = MySQLObserver.Crashed AttributeError false.
Proof. intros rounds alive. reflexivity. Qed.

(** The same for every pool that spawns at least one worker. *)
Lemma supervisor_crashes (rounds : nat) (world : nat → MySQLObserver.World)
    (n_workers : Z) :
  2 ≤ n_workers →
  MySQLObserver.exit_requested (world 0%nat) = false →
  MySQLObserver.pool_on_data_received (S rounds) world n_workers
    = MySQLObserver.Crashed AttributeError false.
Proof.
  intros Hn Hexit. unfold MySQLObserver.pool_on_data_received. cbn.
  rewrite Hexit.
  assert (MySQLObserver.spawn_workers n_workers ≠ []) as Hne.
  { unfold MySQLObserver.spawn_workers. intros Hnil.
    apply (f_equal (@List.length _)) in Hnil.
    rewrite length_map, length_seqZ in Hnil.
    cbn in Hnil. lia. }
  pose proof (poll_None (world 1%nat) _ Hne (spawn_workers_None n_workers)) as Hp.
  destruct (MySQLObserver.spawn_workers n_workers); [done|]. by rewrite Hp.
Qed.

(** ** Further properties of the inventory *)

(** X1. [add] only appends: whatever the arguments and whether the call
    returns or raises, a record that exists keeps its events as a prefix of
    the new ones and its count does not drop, and the record of every other
    address is untouched; the address of the call is an observed node
    afterwards, no observed node is forgotten, and the targets stay as they
    are. *)
Theorem add_keeps_history :
  ∀ (inv : Inventory.t) (a : Z) (rss otap : option (list Z)) (ts : option Z),
    (∀ b r,
       Inventory._index inv !! b = Some r →
       ∃ r', Inventory._index (Inventory.add inv a rss otap ts).1 !! b = Some r'
             ∧ Inventory.events r `prefix_of` Inventory.events r'
             ∧ Inventory.count r ≤ Inventory.count r'
             ∧ (a ≠ b → r' = r))
    ∧ (∀ b, a ≠ b →
         Inventory._index (Inventory.add inv a rss otap ts).1 !! b
           = Inventory._index inv !! b)
    ∧ a ∈ Inventory._nodes (Inventory.add inv a rss otap ts).1
    ∧ Inventory._nodes inv ⊆ Inventory._nodes (Inventory.add inv a rss otap ts).1
    ∧ Inventory._target_nodes (Inventory.add inv a rss otap ts).1
        = Inventory._target_nodes inv
    ∧ Inventory._target_otap_sequence (Inventory.add inv a rss otap ts).1
        = Inventory._target_otap_sequence inv
    ∧ Inventory._target_frequency (Inventory.add inv a rss otap ts).1
        = Inventory._target_frequency inv.
Proof.
  intros inv a rss otap ts.
  split; [|split; [|split; [|split; [|split; [|split]]]]].
  - intros b r Hr. destruct (decide (a = b)) as [<-|Hne].
    + destruct (add_outcome inv a rss otap ts) as [Hok|[e He]].
      * destruct (add_index_ok _ _ _ _ _ Hok) as (ev & _ & ->).
        rewrite Hr. eexists. split; [done|]. cbn.
        split; [by apply prefix_app_r|]. split; [lia|done].
      * rewrite (add_index_raise _ _ _ _ _ _ He). exists r.
        split; [done|]. split; [done|]. split; [lia|done].
    + rewrite add_index_other by done. exists r.
      split; [done|]. split; [done|]. split; [lia|done].
  - intros b Hne. by apply add_index_other.
  - rewrite add_nodes. apply elem_of_union_l. by apply elem_of_singleton.
  - rewrite add_nodes. apply union_subseteq_r.
  - unfold Inventory.add. by destruct (Inventory.make_event rss otap).
  - unfold Inventory.add. by destruct (Inventory.make_event rss otap).
  - unfold Inventory.add. by destruct (Inventory.make_event rss otap).
Qed.

Lemma consistent_empty (inv : Inventory.t) :
  Inventory._index inv = ∅ → consistent inv.
Proof.
  intros Hix. split.
  - rewrite Hix, dom_empty_L. apply empty_subseteq.
  - intros a r. by rewrite Hix, lookup_empty.
Qed.

Lemma consistent_add (inv : Inventory.t) (a : Z) (rss otap : option (list Z))
    (ts : option Z) :
  consistent inv → consistent (Inventory.add inv a rss otap ts).1.
Proof.
  intros [Hdom Hrec]. unfold consistent.
  destruct (Inventory.make_event rss otap) as [ev|e] eqn:Hev.
  - rewrite (add_ok _ _ _ _ _ _ Hev). cbn. split.
    + intros b [r Hb]%elem_of_dom. destruct (decide (a = b)) as [<-|Hne].
      * apply elem_of_union_l. by apply elem_of_singleton.
      * rewrite record_event_lookup_ne in Hb by done.
        apply elem_of_union_r, Hdom, elem_of_dom. eauto.
    + intros b r. destruct (decide (a = b)) as [<-|Hne].
      * rewrite record_event_lookup. intros [= <-].
        destruct (Inventory._index inv !! a) as [r0|] eqn:Ha; cbn.
        -- destruct (Hrec a r0 Ha) as [_ Hc]. split.
           ++ by destruct (Inventory.events r0).
           ++ rewrite length_app. cbn. lia.
        -- done.
      * rewrite record_event_lookup_ne by done. apply Hrec.
  - rewrite (add_raise _ _ _ _ _ _ Hev). cbn. split; [|done].
    intros b Hb. apply elem_of_union_r. by apply Hdom.
Qed.

Lemma consistent_remove (inv : Inventory.t) (a : Z) :
  consistent inv → consistent (Inventory.remove inv a).1.
Proof.
  intros [Hdom Hrec]. unfold consistent, Inventory.remove.
  case_bool_decide as Ha; [|done]. cbn.
  destruct (Inventory._index inv !! a) as [r0|] eqn:Hix; cbn.
  - split.
    + rewrite dom_delete_L. intros b [Hb Hne]%elem_of_difference.
      apply elem_of_difference. split; [by apply Hdom|done].
    + intros b r. destruct (decide (a = b)) as [<-|Hne].
      * by rewrite lookup_delete_eq.
      * rewrite lookup_delete_ne by done. apply Hrec.
  - split; [|done]. intros b Hb. apply elem_of_difference.
    split; [by apply Hdom|]. intros ->%elem_of_singleton.
    apply elem_of_dom in Hb as [r Hr]. congruence.
Qed.

Lemma consistent_step (inv : Inventory.t) (op : Op) :
  consistent inv → consistent (step inv op).
Proof.
  intros Hc. destruct op as [c|a| |now|now]; cbn.
  - by apply consistent_add.
  - by apply consistent_remove.
  - by apply consistent_empty.
  - apply consistent_empty, wait_index.
  - done.
Qed.

(** X2. Whatever calls of [add], [remove], [reset], [wait] and [finish] a
    driver makes on a new inventory, returning or raising, every address
    with a record is in the set of observed nodes, and every record holds
    at least one event and a count equal to the number of its events. *)
Theorem session_consistent :
  ∀ (target_nodes : option (gset Z))
    (target_otap_sequence target_frequency start_delay maximum_duration : option Z)
    (ops : list Op),
    consistent
      (run_ops (Inventory.init target_nodes target_otap_sequence
                  target_frequency start_delay maximum_duration) ops).
Proof.
  intros tn to tf sd md ops.
  assert (∀ inv, consistent inv → consistent (run_ops inv ops)) as Hrun.
  { induction ops as [|op ops IH]; intros inv Hc; [done|].
    cbn. apply IH. by apply consistent_step. }
  apply Hrun. by apply consistent_empty.
Qed.

(** X3. [remove] returns exactly when the address is both observed and
    recorded; then the address is gone from both and nothing else has
    changed. Otherwise it raises [KeyError] and [_index] is as before; for
    an address that is not observed the whole session is as before, while
    an address that is observed without a record (its [add] calls raised)
    is dropped from the observed nodes before the error. *)
Theorem remove_spec :
  ∀ (inv : Inventory.t) (a : Z),
    ((Inventory.remove inv a).2 = Ok tt ↔
       a ∈ Inventory._nodes inv ∧ is_Some (Inventory._index inv !! a))
    ∧ ((Inventory.remove inv a).2 = Ok tt ∨
       (Inventory.remove inv a).2 = Raise KeyError)
    ∧ Inventory._nodes (Inventory.remove inv a).1 = Inventory._nodes inv ∖ {[a]}
    ∧ ((Inventory.remove inv a).2 = Ok tt →
       Inventory._index (Inventory.remove inv a).1
         = delete a (Inventory._index inv))
    ∧ ((Inventory.remove inv a).2 = Raise KeyError →
       Inventory._index (Inventory.remove inv a).1 = Inventory._index inv)
    ∧ (a ∉ Inventory._nodes inv → (Inventory.remove inv a).1 = inv).
Proof.
  intros inv a. unfold Inventory.remove.
  case_bool_decide as Ha; cbn.
  - destruct (Inventory._index inv !! a) as [r|] eqn:Hix; cbn.
    + split; [split; eauto|]. split; [by left|]. split; [done|].
      split; [done|]. split; done.
    + split; [split; [done|by intros [_ [? ?]]]|]. split; [by right|].
      split; [done|]. split; [done|]. split; done.
  - split; [split; [done|by intros [? _]]|]. split; [by right|].
    split; [|done].
    apply set_eq. intros b. rewrite elem_of_difference, elem_of_singleton.
    split; [|by intros [? _]]. intros Hb. split; [done|]. by intros ->.
Qed.

(** X4. Adding a node that was not known and removing it again gives back
    the observed nodes and the index the session had. *)
Theorem add_then_remove :
  ∀ (inv : Inventory.t) (a : Z) (rss otap : option (list Z)) (ts : option Z),
    a ∉ Inventory._nodes inv →
    Inventory._index inv !! a = None →
    (Inventory.add inv a rss otap ts).2 = Ok tt →
    (Inventory.remove (Inventory.add inv a rss otap ts).1 a).2 = Ok tt
    ∧ Inventory._nodes (Inventory.remove (Inventory.add inv a rss otap ts).1 a).1
        = Inventory._nodes inv
    ∧ Inventory._index (Inventory.remove (Inventory.add inv a rss otap ts).1 a).1
        = Inventory._index inv.
Proof.
  intros inv a rss otap ts Hnodes Hix Hok.
  destruct (Inventory.make_event rss otap) as [ev|e] eqn:Hev.
  2: { rewrite (add_raise _ _ _ _ _ _ Hev) in Hok. discriminate. }
  rewrite (add_ok _ _ _ _ _ _ Hev). unfold Inventory.remove. cbn.
  rewrite bool_decide_eq_true_2
    by (apply elem_of_union_l; by apply elem_of_singleton).
  cbn. rewrite record_event_lookup. cbn. split; [done|]. split.
  - apply set_eq. intros b.
    rewrite elem_of_difference, elem_of_union, elem_of_singleton.
    split; [intros [[?|?] ?]; done|]. intros Hb. split; [by right|].
    by intros ->.
  - unfold Inventory.record_event. rewrite Hix. by apply delete_insert_id.
Qed.

Lemma add_then_remove_witness :
  Inventory._index
    (Inventory.remove
       (Inventory.add session_plain 4 (Some [-50]) None (Some 1)).1 4).1
  = Inventory._index session_plain.
Proof.
  refine (proj2 (proj2 (add_then_remove session_plain 4 (Some [-50]) None
                          (Some 1) _ _ _))).
  - apply not_elem_of_empty.
  - reflexivity.
  - reflexivity.
Defined.

(** ** The time window *)

Lemma timedelta_in_range (s : Z) :
  -86399999913600 ≤ s ≤ 86399999999999 →
  timedelta (Some s) = Ok (s * 1000000).
Proof.
  intros Hs. unfold timedelta.
  destruct (Z.leb_spec (-86399999913600) s), (Z.leb_spec s 86399999999999);
    done || lia.
Qed.

Lemma datetime_add_in_range (t d : Z) :
  0 ≤ t + d ≤ 315537897599999999 → datetime_add t d = Ok (t + d).
Proof.
  intros Hs. unfold datetime_add.
  destruct (Z.leb_spec 0 (t + d)), (Z.leb_spec (t + d) 315537897599999999);
    done || lia.
Qed.






(** X25. With a negative start delay of at least -9223372036 seconds, and
    start and deadline dates [datetime] can hold, [wait] raises
    [ValueError] from [time.sleep] after it has reset the session and set
    the start, which lies before the clock reading, and the deadline: the
    round is open although the call failed. *)
Theorem wait_negative_delay :
  ∀ (inv : Inventory.t) (now delay duration : Z),
    Inventory._start_delay inv = Some delay →
    Inventory._maximum_duration inv = Some duration →
    -9223372036 ≤ delay < 0 →
    now ≤ 315537897599999999 →
    0 ≤ now + delay * 1000000 →
    0 ≤ now + delay * 1000000 + duration * 1000000 ≤ 315537897599999999 →
    (Inventory.wait inv now).2 = Raise ValueError
    ∧ Inventory._start (Inventory.wait inv now).1 = Some (now + delay * 1000000)
    ∧ Inventory._deadline (Inventory.wait inv now).1
        = Some (now + delay * 1000000 + duration * 1000000)
    ∧ Inventory._finish (Inventory.wait inv now).1 = None
    ∧ Inventory._nodes (Inventory.wait inv now).1 = ∅
    ∧ Inventory._index (Inventory.wait inv now).1 = ∅.
Proof.
  intros inv now delay duration Hd Hm Hdelay Hnow Hstart Hdeadline.
  unfold Inventory.wait. cbn -[timedelta datetime_add sleep]. rewrite Hd, Hm.
  rewrite !timedelta_in_range by lia. cbn -[timedelta datetime_add sleep].
  rewrite datetime_add_in_range by lia. cbn -[timedelta datetime_add sleep].
  rewrite datetime_add_in_range by lia. cbn -[timedelta datetime_add sleep].
  split; [|done]. unfold sleep.
  destruct (Z.ltb_spec ((now + delay * 1000000 - now) * 1000) (- 2 ^ 63));
    [lia|].
  destruct (Z.ltb_spec (2 ^ 63 - 1) ((now + delay * 1000000 - now) * 1000));
    [lia|].
  destruct (Z.ltb_spec (now + delay * 1000000 - now) 0); [done|lia].
Qed.

Lemma wait_negative_delay_witness :
  (Inventory.wait session_negative_delay 9000000).2 = Raise ValueError
  ∧ Inventory._start (Inventory.wait session_negative_delay 9000000).1
    = Some (9000000 + -5 * 1000000).
Proof.
  split;
    [refine (proj1 (wait_negative_delay session_negative_delay 9000000 (-5) 30
                      _ _ _ _ _ _))
    |refine (proj1 (proj2 (wait_negative_delay session_negative_delay 9000000
                             (-5) 30 _ _ _ _ _ _)))];
    (reflexivity || lia).
Defined.

(** X26. With a start delay [timedelta] can hold but a start that lies
    outside the dates [datetime] can hold, [wait] raises [OverflowError]
    after it has reset the session: neither start nor deadline is set. *)
Theorem wait_start_out_of_range :
  ∀ (inv : Inventory.t) (now delay : Z),
    Inventory._start_delay inv = Some delay →
    -86399999913600 ≤ delay ≤ 86399999999999 →
    now + delay * 1000000 < 0 ∨ 315537897599999999 < now + delay * 1000000 →
    (Inventory.wait inv now).2 = Raise OverflowError
    ∧ Inventory._start (Inventory.wait inv now).1 = None
    ∧ Inventory._deadline (Inventory.wait inv now).1 = None
    ∧ Inventory._nodes (Inventory.wait inv now).1 = ∅
    ∧ Inventory._index (Inventory.wait inv now).1 = ∅.
Proof.
  intros inv now delay Hd Hdelay Hout.
  unfold Inventory.wait. cbn -[timedelta datetime_add sleep]. rewrite Hd.
  rewrite timedelta_in_range by lia. cbn -[timedelta datetime_add sleep].
  assert (datetime_add now (delay * 1000000) = Raise OverflowError) as ->.
  { unfold datetime_add.
    destruct (Z.leb_spec 0 (now + delay * 1000000)),
      (Z.leb_spec (now + delay * 1000000) 315537897599999999); done || lia. }
  done.
Qed.

Lemma wait_start_out_of_range_witness :
  (Inventory.wait session_negative_delay 1000).2 = Raise OverflowError.
Proof.
  refine (proj1 (wait_start_out_of_range session_negative_delay 1000 (-5)
                   _ _ _)).
  - reflexivity.
  - lia.
  - left. lia.
Defined.

(** X7. Once [finish] has been called, [elapsed] no longer follows the
    clock: it is the time from the start to the finish, whenever it is
    read. Before that it is the time from the start to the reading, and
    after a [reset] it raises [TypeError] until [wait] sets a start. *)
Theorem elapsed_frozen_by_finish :
  ∀ (inv : Inventory.t) (start finished t : Z),
    Inventory._start inv = Some start →
    Inventory.elapsed (Inventory.finish inv finished).1 t = Ok (finished - start)
    ∧ (Inventory.finish inv finished).2 = finished
    ∧ (Inventory._finish inv = None → Inventory.elapsed inv t = Ok (t - start))
    ∧ Inventory.elapsed (Inventory.reset inv) t = Raise TypeError
    ∧ Inventory.elapsed (Inventory.reset (Inventory.finish inv finished).1) t
        = Raise TypeError.
Proof.
  intros inv start finished t Hs. unfold Inventory.elapsed. cbn.
  rewrite Hs. repeat split. by intros ->.
Qed.

Lemma elapsed_frozen_by_finish_witness :
  Inventory.elapsed
    (Inventory.finish (Inventory.wait session_timed 1000).1 9000000).1 77
  = Ok (9000000 - 2001000).
Proof.
  refine (proj1 (elapsed_frozen_by_finish (Inventory.wait session_timed 1000).1
                   2001000 9000000 77 _)).
  reflexivity.
Defined.

(** X8. Before [wait] has set a start, the two coverage predicates cannot
    report a miss: where they would return [False] after logging what is
    missing, they raise [TypeError] from [elapsed] instead. *)
Theorem predicates_raise_before_wait :
  ∀ (inv : Inventory.t) (now : Z),
    Inventory._start inv = None →
    Inventory._target_nodes inv ≠ ∅ →
    (Inventory._target_frequency inv = Inventory.Inf →
     ¬ Inventory._target_nodes inv ⊆ Inventory._nodes inv →
     Inventory.is_complete inv now = Raise TypeError)
    ∧ (wf inv →
       is_Some (Inventory._target_otap_sequence inv) →
       Inventory.is_otaped inv now ≠ Ok true →
       Inventory.is_otaped inv now = Raise TypeError).
Proof.
  intros inv now Hstart Hne. split.
  - intros Hinf Hsub.
    unfold Inventory.is_complete, Inventory.truthy_set, Inventory.issuperset,
      Inventory.elapsed.
    rewrite Hinf, Hstart, (bool_decide_eq_false_2 _ Hne),
      (bool_decide_eq_false_2 _ Hsub). done.
  - intros Hwf [t Ht]. unfold Inventory.is_otaped, Inventory.truthy_set,
      Inventory.issuperset, Inventory.elapsed.
    rewrite Ht, Hstart, (bool_decide_eq_false_2 _ Hne). cbn.
    destruct (otaped_nodes_spec inv t Hwf Ht) as (S & -> & _). cbn.
    by case_bool_decide.
Qed.

Lemma predicates_raise_before_wait_witness :
  Inventory.is_complete session_unseen_target 0 = Raise TypeError.
Proof.
  refine (proj1 (predicates_raise_before_wait session_unseen_target 0 _ _) _ _).
  - reflexivity.
  - replace (Inventory._target_nodes session_unseen_target)
      with ({[1]} : gset Z) by (vm_compute; reflexivity).
    apply (non_empty_inhabited_L 1). by apply elem_of_singleton.
  - reflexivity.
  - replace (Inventory._target_nodes session_unseen_target)
      with ({[1]} : gset Z) by (vm_compute; reflexivity).
    replace (Inventory._nodes session_unseen_target)
      with ({[5]} : gset Z) by (vm_compute; reflexivity).
    intros Hsub. assert (1 ∈ ({[5]} : gset Z)) as Hin.
    { apply Hsub. by apply elem_of_singleton. }
    by apply elem_of_singleton in Hin.
Defined.

(** ** Coverage and frequency targets *)

Lemma is_complete_true (inv : Inventory.t) (now : Z) :
  Inventory.is_complete inv now = Ok true →
  Inventory._target_nodes inv ≠ ∅
  ∧ Inventory._target_frequency inv = Inventory.Inf
  ∧ truthy_opt_int (Inventory._target_otap_sequence inv) = false
  ∧ Inventory._target_nodes inv ⊆ Inventory._nodes inv.
Proof.
  unfold Inventory.is_complete, Inventory.truthy_set, Inventory.issuperset.
  rewrite negb_involutive. case_bool_decide as Hempty; [done|].
  destruct (Inventory._target_frequency inv); [done|]. cbn.
  case_bool_decide as Hsub.
  - destruct (truthy_opt_int _); [done|]. done.
  - by destruct (Inventory.elapsed inv now).
Qed.

(** X9. Plain coverage is stable: once [is_complete] has returned [True],
    it returns [True] after any further [add], whether that call returns or
    raises, and at any later clock reading. *)
Theorem is_complete_stable :
  ∀ (inv : Inventory.t) (now now' a : Z) (rss otap : option (list Z))
    (ts : option Z),
    Inventory.is_complete inv now = Ok true →
    Inventory.is_complete (Inventory.add inv a rss otap ts).1 now' = Ok true.
Proof.
  intros inv now now' a rss otap ts (Hne & Hinf & Hotap & Hsub)%is_complete_true.
  assert (Inventory._target_nodes inv
          ⊆ Inventory._nodes (Inventory.add inv a rss otap ts).1) as Hsub'.
  { rewrite add_nodes. by apply union_subseteq_r'. }
  revert Hsub'.
  unfold Inventory.add, Inventory.is_complete, Inventory.truthy_set,
    Inventory.issuperset.
  destruct (Inventory.make_event rss otap); cbn; intros Hsub';
    rewrite Hinf, Hotap, (bool_decide_eq_false_2 _ Hne),
      (bool_decide_eq_true_2 _ Hsub'); done.
Qed.

Lemma is_complete_stable_witness :
  Inventory.is_complete
    (Inventory.add (Inventory.add session_plain 1 (Some [-50]) None None).1
       8 None None None).1 5 = Ok true.
Proof.
  apply (is_complete_stable
           (Inventory.add session_plain 1 (Some [-50]) None None).1 0).
  reflexivity.
Defined.

(** X10. [difference] holds the observed nodes that are no targets and the
    targets that are not observed; it is empty exactly when the observed
    nodes are the targets, and when [is_complete] returns [True] it holds
    no target. *)
Theorem difference_spec :
  ∀ (inv : Inventory.t),
    (∀ a, a ∈ Inventory.difference inv ↔
            (a ∈ Inventory._nodes inv ∧ a ∉ Inventory._target_nodes inv)
            ∨ (a ∈ Inventory._target_nodes inv ∧ a ∉ Inventory._nodes inv))
    ∧ (Inventory.difference inv = ∅ ↔
         Inventory._nodes inv = Inventory._target_nodes inv)
    ∧ (∀ now, Inventory.is_complete inv now = Ok true →
              ∀ a, a ∈ Inventory.difference inv →
                   a ∉ Inventory._target_nodes inv).
Proof.
  intros inv.
  assert (∀ a, a ∈ Inventory.difference inv ↔
            (a ∈ Inventory._nodes inv ∧ a ∉ Inventory._target_nodes inv)
            ∨ (a ∈ Inventory._target_nodes inv ∧ a ∉ Inventory._nodes inv))
    as Hmem.
  { intros a. unfold Inventory.difference.
    by rewrite elem_of_union, !elem_of_difference. }
  split; [done|]. split.
  - split.
    + intros Hempty. apply set_eq. intros a.
      assert (a ∉ Inventory.difference inv) as Hnot
        by (rewrite Hempty; apply not_elem_of_empty).
      rewrite Hmem in Hnot.
      destruct (decide (a ∈ Inventory._nodes inv)),
        (decide (a ∈ Inventory._target_nodes inv)); try done;
        exfalso; apply Hnot; eauto.
    + intros Heq. apply set_eq. intros a. rewrite Hmem, Heq.
      split; [by intros [[? ?]|[? ?]]|]. by intros ?%not_elem_of_empty.
  - intros now (_ & _ & _ & Hsub)%is_complete_true a [[_ ?]|[Ht Hn]]%Hmem;
      [done|]. exfalso. by apply Hn, Hsub.
Qed.

Lemma dict_get_NoDup {V : Type} (d : list (Z * V)) (k : Z) (v : V) :
  NoDup d.*1 → (k, v) ∈ d → dict_get d k = Ok v.
Proof.
  induction d as [|[k' v'] d IH]; cbn; intros Hnd Hin.
  - by apply elem_of_nil in Hin.
  - apply NoDup_cons in Hnd as [Hk' Hnd].
    apply elem_of_cons in Hin as [[= -> ->]|Hin].
    + by rewrite decide_True.
    + rewrite decide_False; [by apply IH|].
      intros ->. apply Hk'. apply list_elem_of_fmap. by exists (k, v).
Qed.

(** The loop of [_filter_dict], from any point on. *)
Lemma filter_dict_loop (inv : Inventory.t) (d l : list (Z * Z)) :
  ∀ w : list (Z * Z),
    (∀ k v, (k, v) ∈ l → dict_get d k = Ok v) →
    NoDup l.*1 →
    (∀ k, k ∈ l.*1 → k ∉ w.*1) →
    for_each (λ w '(k, _),
                if bool_decide (k ∈ Inventory._target_nodes inv)
                then (v ← dict_get d k; Ok (dict_set w k v))
                else Ok w) l w
      = Ok (w ++ filter (λ p, p.1 ∈ Inventory._target_nodes inv) l).
Proof.
  induction l as [|[k v] l IH]; intros w Hget Hnd Hfresh.
  - cbn. by rewrite app_nil_r.
  - cbn in Hnd. apply NoDup_cons in Hnd as [Hk Hnd].
    rewrite filter_cons. cbn [for_each fst].
    case_bool_decide as Ht.
    + rewrite (Hget k v) by by left. cbn.
      rewrite dict_set_fresh by (apply Hfresh; cbn; by left).
      rewrite decide_True by done.
      rewrite IH; [by rewrite <- app_assoc| |done|].
      * intros k' v' Hin. apply Hget. by right.
      * intros k' Hk'. rewrite fmap_app. cbn.
        rewrite elem_of_app, list_elem_of_singleton.
        intros [Hw| ->]; [|done]. revert Hw. apply Hfresh. cbn. by right.
    + rewrite decide_False by done. apply IH; [|done|].
      * intros k' v' Hin. apply Hget. by right.
      * intros k' Hk'. apply Hfresh. cbn. by right.
Qed.

(** X11. On a dict (a list of entries with distinct keys) [_filter_dict]
    returns, without raising, the entries whose key is a target node, in
    the order they had. *)
Theorem filter_dict_spec :
  ∀ (inv : Inventory.t) (d : list (Z * Z)),
    NoDup d.*1 →
    Inventory._filter_dict inv d
      = Ok (filter (λ p, p.1 ∈ Inventory._target_nodes inv) d).
Proof.
  intros inv d Hnd. unfold Inventory._filter_dict.
  rewrite filter_dict_loop; [done| |done|].
  - intros k v Hin. by apply dict_get_NoDup.
  - intros k _ Hin. by apply elem_of_nil in Hin.
Qed.

Lemma filter_dict_spec_witness :
  Inventory._filter_dict session_otap_7 [(5, 1); (2, 4); (9, 0); (1, 3)]
    = Ok (filter (λ p, p.1 ∈ Inventory._target_nodes session_otap_7)
                 [(5, 1); (2, 4); (9, 0); (1, 3)]).
Proof.
  apply (filter_dict_spec session_otap_7 [(5, 1); (2, 4); (9, 0); (1, 3)]).
  cbn. repeat (apply NoDup_cons; split;
    [rewrite ?elem_of_cons, elem_of_nil; intros H;
     repeat (destruct H as [H|H]; [discriminate H|]); done|]).
  apply NoDup_nil_2.
Defined.

Lemma forallb_filter_graph (inv : Inventory.t) (f : Z → bool) (g : Z → Z)
    (l : list Z) :
  forallb f (filter (λ p : Z * Z, p.1 ∈ Inventory._target_nodes inv)
                    (map (λ a, (a, g a)) l)).*2 = true
  ↔ ∀ a, a ∈ l → a ∈ Inventory._target_nodes inv → f (g a) = true.
Proof.
  induction l as [|a l IH].
  - cbn. split; [|done]. intros _ a Hin. by apply elem_of_nil in Hin.
  - cbn [map]. rewrite filter_cons. cbn [fst]. case_decide as Ht.
    + rewrite fmap_cons. cbn [forallb snd].
      rewrite andb_true_iff, IH. split.
      * intros [Ha Hall] b [->|Hb]%elem_of_cons; [done|]. by apply Hall.
      * intros Hall. split; [apply Hall; [by left|done]|].
        intros b Hb. apply Hall. by right.
    + rewrite IH. split.
      * intros Hall b [->|Hb]%elem_of_cons; [done|]. by apply Hall.
      * intros Hall b Hb. apply Hall. by right.
Qed.

(** X12. With target nodes given and every value readable,
    [is_frequency_reached] returns, and returns [True] exactly when the
    target frequency is a number that every target node reaches, an
    unobserved target node counting as [0]. With no target frequency given
    (stored as infinity) it returns [False]. *)
Theorem is_frequency_reached_spec :
  ∀ inv : Inventory.t,
    Inventory._target_nodes inv ≠ ∅ →
    (truthy_opt_int (Inventory._target_otap_sequence inv) = true →
     ∀ a, a ∈ dom (Inventory._index inv) →
          ∃ ev m, latest_event inv a = Some ev
                  ∧ Inventory.get_otap_max ev = Ok m) →
    ∃ b : bool,
      Inventory.is_frequency_reached inv = Ok b
      ∧ (b = true ↔
           ∃ n, Inventory._target_frequency inv = Inventory.Finite n
                ∧ ∀ a, a ∈ Inventory._target_nodes inv →
                       n ≤ reported_value inv a)
      ∧ (Inventory._target_frequency inv = Inventory.Inf → b = false).
Proof.
  intros inv Hne Hmax.
  set (ks := sorted (elements (dom (Inventory._index inv)))).
  set (ms := filter (λ a, a ∉ ks) (elements (Inventory._target_nodes inv))).
  assert (Inventory.frequency inv
          = Ok (map (λ a, (a, reported_value inv a)) (ks ++ ms))) as Hfreq.
  { rewrite (frequency_eq inv Hmax). fold ks ms. rewrite map_app.
    do 2 f_equal.
    - apply map_ext_in. intros a Ha%list_elem_of_In%sorted_elem_of%elem_of_elements.
      unfold reported_value. by rewrite bool_decide_eq_true_2.
    - apply map_ext_in. intros a [Ha _]%list_elem_of_In%list_elem_of_filter.
      unfold reported_value. rewrite bool_decide_eq_false_2; [done|].
      intros Hd. by apply Ha, sorted_elem_of, elem_of_elements. }
  assert (NoDup (ks ++ ms)) as Hnd.
  { apply NoDup_app. split; [apply sorted_NoDup, NoDup_elements|].
    split; [|apply NoDup_filter, NoDup_elements].
    by intros a Ha [Hnot _]%list_elem_of_filter. }
  assert (∀ a, a ∈ Inventory._target_nodes inv → a ∈ ks ++ ms) as Hcover.
  { intros a Ha. apply elem_of_app.
    destruct (decide (a ∈ ks)); [by left|]. right.
    apply list_elem_of_filter. split; [done|]. by apply elem_of_elements. }
  unfold Inventory.is_frequency_reached, Inventory.truthy_set.
  rewrite (bool_decide_eq_false_2 _ Hne), Hfreq. cbn.
  rewrite filter_dict_spec by by rewrite fmap_fst_graph. cbn.
  eexists. split; [done|].
  assert (∀ f, forallb f
            (filter (λ p : Z * Z, p.1 ∈ Inventory._target_nodes inv)
               (map (λ a, (a, reported_value inv a)) (ks ++ ms))).*2 = true
          ↔ ∀ a, a ∈ Inventory._target_nodes inv →
                 f (reported_value inv a) = true) as Hall.
  { intros f. rewrite forallb_filter_graph. split.
    - intros H a Ha. apply H; [by apply Hcover|done].
    - intros H a _ Ha. by apply H. }
  split.
  - rewrite Hall. destruct (Inventory._target_frequency inv) as [n|]; cbn.
    + split.
      * intros H. exists n. split; [done|]. intros a Ha.
        by apply Z.leb_le, H.
      * intros (n' & [= <-] & H) a Ha. by apply Z.leb_le, H.
    + split; [|by intros (n & ? & _)].
      intros H. apply set_choose_L in Hne as [a Ha]. by specialize (H a Ha).
  - intros Hinf. apply not_true_is_false. rewrite Hall, Hinf. cbn.
    intros H. apply set_choose_L in Hne as [a Ha]. by specialize (H a Ha).
Qed.

Lemma is_frequency_reached_spec_witness :
  ∃ b : bool,
    Inventory.is_frequency_reached
      (add_all session_twice
         [mkCall 1 (Some [-50]) None None; mkCall 2 (Some [-51]) None None;
          mkCall 1 (Some [-52]) None None]) = Ok b.
Proof.
  destruct (is_frequency_reached_spec
              (add_all session_twice
                 [mkCall 1 (Some [-50]) None None;
                  mkCall 2 (Some [-51]) None None;
                  mkCall 1 (Some [-52]) None None]))
    as (b & Hb & _).
  - replace (Inventory._target_nodes _) with ({[1; 2]} : gset Z)
      by (vm_compute; reflexivity).
    apply (non_empty_inhabited_L 1), elem_of_union_l.
    by apply elem_of_singleton.
  - intros Ht. discriminate Ht.
  - by exists b.
Defined.

(** ** Labels of [frequency_by_value] *)

Lemma uint_of_string_zeros (k : nat) (s : string) :
  NilEmpty.uint_of_string (String.append (zeros k) s)
    = Nat.iter k Decimal.D0 <$> NilEmpty.uint_of_string s.
Proof.
  induction k as [|k IH].
  - change (String.append (zeros 0) s) with s.
    by destruct (NilEmpty.uint_of_string s).
  - change (String.append (zeros (S k)) s)
      with (String "0"%char (String.append (zeros k) s)).
    cbn [NilEmpty.uint_of_string]. rewrite IH.
    by destruct (NilEmpty.uint_of_string s).
Qed.

Lemma of_uint_zeros (k : nat) (d : Decimal.uint) :
  N.of_uint (Nat.iter k Decimal.D0 d) = N.of_uint d.
Proof. induction k as [|k IH]; [done|]. cbn. exact IH. Qed.

Lemma uint_of_digits (n : N) :
  NilEmpty.uint_of_string (NilZero.string_of_uint (N.to_uint n))
    = Some (N.to_uint n).
Proof.
  unfold NilZero.string_of_uint.
  destruct (N.to_uint n) eqn:Hd; try apply NilEmpty.usu.
  destruct n as [|p]; [discriminate|].
  cbn in Hd. by apply DecimalPos.Unsigned.to_uint_nonnil in Hd.
Qed.

Lemma uint_of_zfill (w : nat) (n : N) :
  N.of_uint <$>
    NilEmpty.uint_of_string (zfill w (NilZero.string_of_uint (N.to_uint n)))
  = Some n.
Proof.
  unfold zfill. rewrite uint_of_string_zeros, uint_of_digits. cbn.
  by rewrite of_uint_zeros, DecimalN.Unsigned.of_to.
Qed.

Lemma int_of_label_format (key : Z) : int_of_label (format_03 key) = Some key.
Proof.
  unfold format_03, int_of_label.
  destruct (Z.ltb_spec key 0) as [Hneg|Hpos].
  - cbn [NilEmpty.uint_of_string]. unfold DecimalString.uint_of_char at 1.
    cbn -[zfill NilEmpty.uint_of_string NilZero.string_of_uint].
    destruct (NilEmpty.uint_of_string (zfill 2 _)) eqn:Hz;
      pose proof (uint_of_zfill 2 (Z.abs_N key)) as Hn;
      rewrite Hz in Hn; cbn in Hn; [|done].
    injection Hn as ->. f_equal. rewrite N2Z.inj_abs_N. lia.
  - destruct (NilEmpty.uint_of_string (zfill 3 _)) eqn:Hz;
      pose proof (uint_of_zfill 3 (Z.abs_N key)) as Hn;
      rewrite Hz in Hn; cbn in Hn; [|done].
    injection Hn as ->. f_equal. rewrite N2Z.inj_abs_N. lia.
Qed.

Lemma format_03_inj (key key' : Z) : format_03 key = format_03 key' → key = key'.
Proof.
  intros Heq. pose proof (int_of_label_format key) as H1.
  rewrite Heq, int_of_label_format in H1. by injection H1.
Qed.

(** X13. The label that [frequency_by_value] writes for a value can be
    read back: [int] of the label is the value, for negative values too,
    and so two values never share a label. *)
Theorem format_03_read_back :
  ∀ key : Z,
    int_of_label (format_03 key) = Some key
    ∧ (∀ key', format_03 key = format_03 key' → key = key').
Proof.
  intros key. split; [apply int_of_label_format|].
  intros key'. apply format_03_inj.
Qed.

(** ** Grouping by value *)

Section dict_update.
Context {K V : Type} `{EqDecision K}.

Lemma dict_get_set (d : list (K * V)) (k k' : K) (v : V) :
  dict_get (dict_set d k v) k' = if decide (k = k') then Ok v else dict_get d k'.
Proof.
  induction d as [|[k0 v0] d IH]; cbn.
  - by destruct (decide (k = k')).
  - destruct (decide (k0 = k)) as [->|Hne]; cbn.
    + by destruct (decide (k = k')).
    + rewrite IH. destruct (decide (k0 = k')) as [->|?]; [|done].
      by rewrite decide_False.
Qed.

Lemma dict_set_keys_present (d : list (K * V)) (k : K) (v : V) :
  k ∈ d.*1 → (dict_set d k v).*1 = d.*1.
Proof.
  induction d as [|[k0 v0] d IH]; cbn; intros Hin.
  - by apply elem_of_nil in Hin.
  - destruct (decide (k0 = k)) as [->|Hne]; cbn; [done|].
    apply elem_of_cons in Hin as [->|Hin]; [done|]. by rewrite IH.
Qed.

Lemma dict_get_missing (d : list (K * V)) (k : K) :
  k ∉ d.*1 → dict_get d k = Raise KeyError.
Proof.
  induction d as [|[k0 v0] d IH]; cbn; intros Hk; [done|].
  apply not_elem_of_cons in Hk as [Hne Hk].
  rewrite decide_False by done. by apply IH.
Qed.
End dict_update.

Lemma elem_of_bucket (inv : Inventory.t) (l : list Z) (x a : Z) :
  a ∈ bucket inv l x ↔ a ∈ l ∧ frequency_value inv a = x.
Proof.
  unfold bucket. rewrite elem_of_list_to_set, list_elem_of_filter. tauto.
Qed.

Lemma grouped_step (inv : Inventory.t) (p : list Z) (fr : list (Z * gset Z))
    (a : Z) :
  grouped inv p fr →
  let frequency :=
    if negb (dict_mem fr (frequency_value inv a))
    then dict_set fr (frequency_value inv a) (∅ : gset Z) else fr in
  ∃ s, dict_get frequency (frequency_value inv a) = Ok s
       ∧ grouped inv (p ++ [a])
           (dict_set frequency (frequency_value inv a) ({[a]} ∪ s)).
Proof.
  intros (Hnd & Hkeys & Hget). set (x := frequency_value inv a).
  assert (∀ y, bucket inv (p ++ [a]) y
             = if decide (x = y) then {[a]} ∪ bucket inv p y
               else bucket inv p y) as Hbucket.
  { intros y. apply set_eq. intros b. rewrite elem_of_bucket, elem_of_app.
    rewrite list_elem_of_singleton.
    destruct (decide (x = y)) as [<-|Hne].
    - rewrite elem_of_union, elem_of_singleton, elem_of_bucket.
      split; [intros [[?| ->] ?]; eauto|].
      intros [->|[? ?]]; [by split; [right|]|by split; [left|]].
    - rewrite elem_of_bucket. split; [|intros [? ?]; by split; [left|]].
      intros [[?| ->] ?]; [done|]. by subst x. }
  destruct (dict_mem fr x) eqn:Hmem; cbn.
  - apply dict_mem_elem_of in Hmem. exists (bucket inv p x).
    split; [by apply Hget|]. split; [|split].
    + by rewrite dict_set_keys_present.
    + intros y. rewrite dict_set_keys_present by done. rewrite Hkeys.
      split.
      * intros (b & Hb & Hv). exists b. split; [|done].
        apply elem_of_app. by left.
      * intros (b & [Hb| ->%list_elem_of_singleton]%elem_of_app & Hv); [eauto|].
        apply Hkeys. by rewrite <- Hv.
    + intros y Hy. rewrite dict_set_keys_present in Hy by done.
      rewrite dict_get_set, Hbucket.
      destruct (decide (x = y)) as [<-|Hne]; [done|]. by apply Hget.
  - assert (x ∉ fr.*1) as Hfresh.
    { intros Hin%dict_mem_elem_of. congruence. }
    exists ∅. split; [by rewrite dict_get_set, decide_True|].
    rewrite (dict_set_fresh fr x ∅) by done.
    assert (x ∈ (fr ++ [(x, ∅ : gset Z)]).*1) as Hx.
    { rewrite fmap_app. apply elem_of_app. right. by left. }
    split; [|split].
    + rewrite dict_set_keys_present by done. rewrite fmap_app. cbn.
      apply NoDup_app. split; [done|]. split; [|apply NoDup_singleton].
      by intros y Hy ->%list_elem_of_singleton.
    + intros y. rewrite dict_set_keys_present by done. rewrite fmap_app. cbn.
      rewrite elem_of_app, list_elem_of_singleton, Hkeys. split.
      * intros [(b & Hb & Hv)| ->].
        -- exists b. split; [|done]. apply elem_of_app. by left.
        -- exists a. split; [|done]. apply elem_of_app. right. by left.
      * intros (b & [Hb| ->%list_elem_of_singleton]%elem_of_app & Hv);
          [left; eauto|by right].
    + intros y Hy. rewrite dict_set_keys_present in Hy by done.
      rewrite fmap_app in Hy. cbn in Hy.
      rewrite dict_get_set, Hbucket.
      destruct (decide (x = y)) as [<-|Hne].
      * do 2 f_equal. symmetry. apply set_eq. intros b.
        rewrite elem_of_bucket. split; [|by intros ?%not_elem_of_empty].
        intros [Hb Hv]. exfalso. apply Hfresh, Hkeys. eauto.
      * apply elem_of_app in Hy as [Hy|Hy%list_elem_of_singleton]; [|done].
        rewrite <- (Hget y Hy). rewrite <- (dict_set_fresh fr x ∅ Hfresh).
        rewrite dict_get_set. by rewrite decide_False.
Qed.

Lemma grouped_loop (inv : Inventory.t) (l : list Z) :
  ∀ (p : list Z) (fr : list (Z * gset Z)) (mx : Z),
    grouped inv p fr →
    (∀ a, a ∈ l → Inventory.node_value inv a = Ok (frequency_value inv a)) →
    ∃ fr' mx',
      for_each
        (λ '(frequency, max_value) node,
           value ← Inventory.node_value inv node;
           let max_value := if max_value <? value then value else max_value in
           let frequency :=
             if negb (dict_mem frequency value)
             then dict_set frequency value (∅ : gset Z) else frequency in
           s ← dict_get frequency value;
           Ok (dict_set frequency value ({[node]} ∪ s), max_value))
        l (fr, mx) = Ok (fr', mx')
      ∧ grouped inv (p ++ l) fr'.
Proof.
  induction l as [|a l IH]; intros p fr mx Hg Hval.
  - exists fr, mx. by rewrite app_nil_r.
  - cbn [for_each]. rewrite (Hval a) by by left. cbn.
    destruct (grouped_step inv p fr a Hg) as (s & Hs & Hg'). cbn in Hs, Hg'.
    rewrite Hs. cbn.
    match goal with |- context [for_each _ l (?fr1, ?mx1)] =>
      destruct (IH (p ++ [a]) fr1 mx1 Hg') as (fr' & mx' & Hrun & Hfin) end.
    { intros b Hb. apply Hval. by right. }
    exists fr', mx'. split; [done|]. by rewrite <- app_assoc in Hfin.
Qed.

(** The second loop of [frequency_by_value]. *)
Lemma label_loop (fr : list (Z * gset Z)) (g : Z → gset Z) (l : list Z) :
  ∀ ofreq : list (string * gset Z),
    NoDup l →
    (∀ x, x ∈ l → dict_get fr x = Ok (g x)) →
    (∀ x, x ∈ l →
          String.append "frequency_" (format_03 x) ∉ ofreq.*1) →
    for_each (λ ofreq key,
                s ← dict_get fr key;
                Ok (dict_set ofreq
                      (String.append "frequency_" (format_03 key)) s))
             l ofreq
      = Ok (ofreq
            ++ map (λ x, (String.append "frequency_" (format_03 x), g x)) l).
Proof.
  induction l as [|x l IH]; intros ofreq Hnd Hget Hfresh.
  - cbn. by rewrite app_nil_r.
  - apply NoDup_cons in Hnd as [Hx Hnd]. cbn [for_each].
    rewrite (Hget x) by by left. cbn.
    rewrite dict_set_fresh by (apply Hfresh; by left).
    rewrite IH; [by rewrite <- app_assoc|done| |].
    + intros y Hy. apply Hget. by right.
    + intros y Hy. rewrite fmap_app. cbn.
      rewrite elem_of_app, list_elem_of_singleton.
      intros [Hin|Heq]; [by apply (Hfresh y); [right|]|].
      apply (inj (String.append "frequency_")), format_03_inj in Heq.
      by subst y.
Qed.

Lemma bucket_sorted (inv : Inventory.t) (l : list Z) (x : Z) :
  bucket inv (sorted l) x = bucket inv l x.
Proof.
  apply set_eq. intros a. by rewrite !elem_of_bucket, sorted_elem_of.
Qed.

Lemma session_otaped_readable :
  truthy_opt_int (Inventory._target_otap_sequence session_otaped) = true →
  ∀ a, a ∈ dom (Inventory._index session_otaped) →
       ∃ ev m, latest_event session_otaped a = Some ev
               ∧ Inventory.get_otap_max ev = Ok m.
Proof.
  intros _ a Ha.
  assert (dom (Inventory._index session_otaped) = {[1; 2]}) as Hdom
    by (vm_compute; reflexivity).
  rewrite Hdom in Ha.
  apply elem_of_union in Ha as [->%elem_of_singleton| ->%elem_of_singleton].
  - exists (Inventory.EvBoth (Some [-62]) (Some [3; 7]) 7 3), 7.
    split; reflexivity.
  - exists (Inventory.EvOtap (Some [7; 9]) 9 7), 9. split; reflexivity.
Qed.

(** X14. When every value can be read, [frequency_by_value] returns one
    entry per value that some observed node has, in strictly ascending
    order of the values, labelled ["frequency_"] followed by the value
    zero-padded to three places, and holding exactly the observed nodes with
    that value; so every observed node is in one bucket, that of its
    value. *)
Theorem frequency_by_value_groups :
  ∀ inv : Inventory.t,
    (truthy_opt_int (Inventory._target_otap_sequence inv) = true →
     ∀ a, a ∈ dom (Inventory._index inv) →
          ∃ ev m, latest_event inv a = Some ev
                  ∧ Inventory.get_otap_max ev = Ok m) →
    ∃ values : list Z,
      Inventory.frequency_by_value inv
        = Ok (map (λ x, (String.append "frequency_" (format_03 x),
                         bucket inv (elements (dom (Inventory._index inv))) x))
                  values)
      ∧ StronglySorted Z.lt values
      ∧ (∀ x, x ∈ values ↔
              ∃ a, a ∈ dom (Inventory._index inv) ∧ frequency_value inv a = x)
      ∧ (∀ x a, a ∈ bucket inv (elements (dom (Inventory._index inv))) x ↔
                a ∈ dom (Inventory._index inv) ∧ frequency_value inv a = x).
Proof.
  intros inv Hmax.
  set (ks := sorted (elements (dom (Inventory._index inv)))).
  destruct (grouped_loop inv ks [] [] 0) as (fr & mx & Hrun & Hg).
  { split; [apply NoDup_nil_2|]. split.
    - intros x. split; [by intros ?%elem_of_nil|].
      by intros (a & ?%elem_of_nil & _).
    - by intros x ?%elem_of_nil. }
  { intros a Ha%sorted_elem_of%elem_of_elements.
    apply node_value_ok; [done|]. intros Ht. by apply Hmax. }
  destruct Hg as (Hnd & Hkeys & Hget).
  change ([] ++ ks) with ks in Hkeys, Hget.
  exists (sorted fr.*1). split; [|split; [|split]].
  - unfold Inventory.frequency_by_value. cbv zeta in Hrun |- *. fold ks.
    rewrite Hrun. cbn.
    rewrite (label_loop fr (bucket inv ks)).
    + cbn. f_equal. apply map_ext. intros x. f_equal. apply bucket_sorted.
    + by apply sorted_NoDup.
    + intros x Hx. apply Hget. by apply sorted_elem_of.
    + by intros x _ ?%elem_of_nil.
  - by apply sorted_strictly.
  - intros x. rewrite sorted_elem_of, Hkeys. unfold ks.
    by setoid_rewrite sorted_elem_of; setoid_rewrite elem_of_elements.
  - intros x a. by rewrite elem_of_bucket, elem_of_elements.
Qed.

Lemma frequency_by_value_groups_witness :
  ∃ values : list Z,
    Inventory.frequency_by_value session_otaped
      = Ok (map (λ x, (String.append "frequency_" (format_03 x),
                       bucket session_otaped
                         (elements (dom (Inventory._index session_otaped))) x))
                values)
    ∧ StronglySorted Z.lt values.
Proof.
  destruct (frequency_by_value_groups session_otaped session_otaped_readable)
    as (values & Hv & Hs & _).
  exists values. by split.
Defined.

(** ** The dequeue loops *)

Lemma map_message_issued (mysql : MySQLObserver.MySQL)
    (message : MySQLObserver.Message) :
  MySQLObserver.issued (MySQLObserver._map_message mysql message).1
    = MySQLObserver.issued mysql ++ writes_of mysql message
  ∧ MySQLObserver.refuses (MySQLObserver._map_message mysql message).1
    = MySQLObserver.refuses mysql.
Proof.
  destruct message as [k a ts p].
  unfold MySQLObserver._map_message, MySQLObserver.call,
    MySQLObserver.isinstance, writes_of. cbn.
  destruct (MySQLObserver.refuses mysql _ _); cbn; [done|].
  destruct k; repeat case_bool_decide; try done; cbn;
    by rewrite <- app_assoc.
Qed.



Lemma writes_of_ext (mysql mysql' : MySQLObserver.MySQL)
    (message : MySQLObserver.Message) :
  MySQLObserver.refuses mysql' = MySQLObserver.refuses mysql →
  writes_of mysql' message = writes_of mysql message.
Proof. intros Heq. unfold writes_of. by rewrite Heq. Qed.


Lemma reconnect_succeeds (exit_signal : nat → bool) (connects : list bool) :
  (∀ i, exit_signal i = false) →
  true ∈ connects →
  ∀ reads, ∃ reads',
    MySQLObserver.reconnect exit_signal reads connects
      = (reads', MySQLObserver.Reconnected).
Proof.
  intros Hexit. induction connects as [|c connects IH]; intros Hin reads.
  - by apply elem_of_nil in Hin.
  - cbn. rewrite Hexit. destruct c; [eauto|].
    apply IH. by apply elem_of_cons in Hin as [?|?].
Qed.

Lemma work_loop_stopped (mysql : MySQLObserver.MySQL) (exit_signal : nat → bool)
    (reads : nat) (turns : list MySQLObserver.Turn) :
  exit_signal reads = true →
  MySQLObserver.work_loop mysql exit_signal reads turns
    = (mysql, MySQLObserver.Stopped).
Proof. intros Hexit. destruct turns; cbn; by rewrite Hexit. Qed.

(** X16. While nobody asks for an exit and the queue stays open, a worker
    loses no message: if after every failed ping some reconnect attempt
    succeeds, it issues for every message it dequeues the router's writes,
    in the order of the queue, whether or not writes for earlier messages
    were refused, and then waits for more. *)
Theorem work_dispatches_all :
  ∀ (turns : list MySQLObserver.Turn) (mysql : MySQLObserver.MySQL)
    (exit_signal : nat → bool) (reads : nat),
    (∀ i, exit_signal i = false) →
    Forall (λ t, MySQLObserver.ping_fails t = true →
                 true ∈ MySQLObserver.connects t) turns →
    Forall (λ t, MySQLObserver.got t ≠ MySQLObserver.QueueEOF
                 ∧ MySQLObserver.got t ≠ MySQLObserver.Interrupted) turns →
    MySQLObserver.issued (MySQLObserver.work_loop mysql exit_signal reads turns).1
      = MySQLObserver.issued mysql
        ++ List.concat (map (writes_of mysql)
                            (items (map MySQLObserver.got turns)))
    ∧ MySQLObserver.refuses
        (MySQLObserver.work_loop mysql exit_signal reads turns).1
      = MySQLObserver.refuses mysql
    ∧ (MySQLObserver.work_loop mysql exit_signal reads turns).2
      = MySQLObserver.Waiting.
Proof.
  induction turns as [|t turns IH]; intros mysql exit_signal reads Hexit Hrec Hopen;
    cbn [MySQLObserver.work_loop]; rewrite Hexit.
  - cbn. by rewrite app_nil_r.
  - apply Forall_cons in Hrec as [Hrec_t Hrec].
    apply Forall_cons in Hopen as [[Heof Hint] Hopen].
    cbn [map]. destruct (MySQLObserver.got t) as [| | |m] eqn:Hgot; try done.
    + by apply IH.
    + assert (∃ reads',
                (if MySQLObserver.ping_fails t
                 then MySQLObserver.reconnect exit_signal (S reads)
                        (MySQLObserver.connects t)
                 else (S reads, MySQLObserver.Reconnected))
                = (reads', MySQLObserver.Reconnected)) as [reads' ->].
      { destruct (MySQLObserver.ping_fails t); [|eauto].
        apply reconnect_succeeds; [done|]. by apply Hrec_t. }
      rewrite Hexit. cbn [negb].
      destruct (map_message_issued mysql m) as [Hissued Hrefuses].
      destruct (IH (MySQLObserver._map_message mysql m).1 exit_signal
                  (S reads') Hexit Hrec Hopen) as (Hlog & Href & Hend).
      split; [|split; [congruence|done]].
      change (items (MySQLObserver.Item m :: map MySQLObserver.got turns))
        with (m :: items (map MySQLObserver.got turns)).
      cbn [map List.concat]. rewrite Hlog, Hissued, <- app_assoc.
      do 3 f_equal. apply map_ext. intros m'. by apply writes_of_ext.
Qed.

Lemma work_dispatches_all_witness :
  MySQLObserver.issued
    (MySQLObserver.work_loop mysql_no_advertiser (λ _, false) 0
       [MySQLObserver.mkTurn
          (MySQLObserver.Item (message_of MySQLObserver.AdvertiserMessage 1))
          false [];
        MySQLObserver.mkTurn MySQLObserver.QueueEmpty false [];
        MySQLObserver.mkTurn
          (MySQLObserver.Item (message_of MySQLObserver.TestNWMessage 2))
          true [false; false; true]]).1
  = [(MySQLObserver.put_to_received_packets,
      message_of MySQLObserver.AdvertiserMessage 1);
     (MySQLObserver.put_advertiser,
      message_of MySQLObserver.AdvertiserMessage 1);
     (MySQLObserver.put_to_received_packets,
      message_of MySQLObserver.TestNWMessage 2);
     (MySQLObserver.put_testnw_measurements,
      message_of MySQLObserver.TestNWMessage 2)].
Proof.
  refine (proj1 (work_dispatches_all _ mysql_no_advertiser (λ _, false) 0 _ _ _)).
  - done.
  - repeat constructor; discriminate.
  - repeat constructor; discriminate.
Defined.

(** X17. A worker drops the message it holds when the exit is requested
    right after the dequeue: whether or not the ping fails, the message is
    not written and the loop is left. *)
Theorem work_drops_on_exit :
  ∀ (mysql : MySQLObserver.MySQL) (exit_signal : nat → bool) (reads : nat)
    (t : MySQLObserver.Turn) (turns : list MySQLObserver.Turn)
    (m : MySQLObserver.Message),
    MySQLObserver.got t = MySQLObserver.Item m →
    exit_signal reads = false →
    (∀ i, (reads < i)%nat → exit_signal i = true) →
    MySQLObserver.work_loop mysql exit_signal reads (t :: turns)
      = (mysql, MySQLObserver.Stopped).
Proof.
  intros mysql exit_signal reads t turns m Hgot Hnow Hlater.
  cbn [MySQLObserver.work_loop]. rewrite Hnow, Hgot.
  destruct (MySQLObserver.ping_fails t).
  - assert (MySQLObserver.reconnect exit_signal (S reads)
              (MySQLObserver.connects t)
            = (S (S reads), MySQLObserver.GaveUp)) as ->.
    { destruct (MySQLObserver.connects t); cbn; by rewrite Hlater by lia. }
    rewrite Hlater by lia. cbn [negb].
    apply work_loop_stopped. apply Hlater. lia.
  - rewrite Hlater by lia. cbn [negb].
    apply work_loop_stopped. apply Hlater. lia.
Qed.

Lemma work_drops_on_exit_witness :
  MySQLObserver.work_loop mysql_no_advertiser (λ i, bool_decide (3 < i)%nat) 3
    [MySQLObserver.mkTurn
       (MySQLObserver.Item (message_of MySQLObserver.TestNWMessage 2))
       true [true]]
  = (mysql_no_advertiser, MySQLObserver.Stopped).
Proof.
  apply (work_drops_on_exit mysql_no_advertiser (λ i, bool_decide (3 < i)%nat) 3
           _ [] (message_of MySQLObserver.TestNWMessage 2)).
  - reflexivity.
  - reflexivity.
  - intros i Hi. by apply bool_decide_eq_true_2.
Defined.

(** ** The pool *)

(** X18. The pool starts one worker fewer than [n_workers]: the workers are
    numbered from 1 to [n_workers - 1], none is started when [n_workers] is
    at most 1, and what is kept for each of them is [None]. *)
Theorem spawn_workers_numbering :
  ∀ n_workers : Z,
    (∀ k, k ∈ (MySQLObserver.spawn_workers n_workers).*1 ↔ 1 ≤ k < n_workers)
    ∧ NoDup (MySQLObserver.spawn_workers n_workers).*1
    ∧ List.length (MySQLObserver.spawn_workers n_workers)
        = Z.to_nat (n_workers - 1)
    ∧ (n_workers ≤ 1 → MySQLObserver.spawn_workers n_workers = [])
    ∧ Forall (λ entry, entry.2 = None) (MySQLObserver.spawn_workers n_workers).
Proof.
  intros n.
  assert ((MySQLObserver.spawn_workers n).*1 = seqZ 1 (n - 1)) as Hkeys.
  { unfold MySQLObserver.spawn_workers.
    generalize (seqZ 1 (n - 1)). intros l.
    induction l as [|k l IH]; cbn; [done|]. by rewrite IH. }
  split; [|split; [|split; [|split]]].
  - intros k. rewrite Hkeys, elem_of_seqZ. lia.
  - rewrite Hkeys. apply NoDup_seqZ.
  - unfold MySQLObserver.spawn_workers. by rewrite length_map, length_seqZ.
  - intros Hn. apply length_zero_iff_nil. unfold MySQLObserver.spawn_workers.
    rewrite length_map, length_seqZ. lia.
  - apply spawn_workers_None.
Qed.

Lemma poll_all_alive (w : MySQLObserver.World) (procs : list MySQLObserver.Process) :
  (∀ p, p ∈ procs → MySQLObserver.alive w (MySQLObserver.pseq p) = true) →
  MySQLObserver.poll w (map (λ p, (MySQLObserver.pseq p, Some p)) procs) = Ok false.
Proof.
  induction procs as [|q procs IH]; intros Hall; [done|].
  cbn. rewrite (Hall q) by by left. apply IH.
  intros p Hp. apply Hall. by right.
Qed.

(** X19. Over a dict that holds the [Process] objects, the supervisor loop
    does what it is written for: as long as nobody asks for an exit and all
    workers are alive at a poll, the loop goes round once more with
    [exit_signal] unset; when some worker is found dead, [exit_signal] is
    set and the loop is left at the next test of the loop head. *)
Theorem wait_for_exit_detects_dead :
  ∀ (rounds : nat) (world : nat → MySQLObserver.World) (i : nat)
    (procs : list MySQLObserver.Process),
    procs ≠ [] →
    MySQLObserver.exit_requested (world i) = false →
    ((∀ p, p ∈ procs →
           MySQLObserver.alive (world (S i)) (MySQLObserver.pseq p) = true) →
     MySQLObserver._wait_for_exit (S rounds) world i false
       (map (λ p, (MySQLObserver.pseq p, Some p)) procs)
     = MySQLObserver._wait_for_exit rounds world (S i) false
         (map (λ p, (MySQLObserver.pseq p, Some p)) procs))
    ∧ ((∃ p, p ∈ procs
             ∧ MySQLObserver.alive (world (S i)) (MySQLObserver.pseq p) = false) →
       MySQLObserver._wait_for_exit (S (S rounds)) world i false
         (map (λ p, (MySQLObserver.pseq p, Some p)) procs)
       = MySQLObserver.Exited true).
Proof.
  intros rounds world i procs Hne Hexit. split.
  - intros Halive. cbn [MySQLObserver._wait_for_exit]. rewrite Hexit. cbn.
    rewrite (poll_all_alive _ _ Halive).
    destruct procs; [done|]. reflexivity.
  - intros Hdead. cbn [MySQLObserver._wait_for_exit]. rewrite Hexit.
    cbn [orb]. rewrite (poll_detects_dead _ _ Hdead).
    destruct procs; [done|]. reflexivity.
Qed.

Lemma wait_for_exit_detects_dead_witness :
  MySQLObserver._wait_for_exit 2
    (λ i, MySQLObserver.mkWorld false (λ p, negb (p =? 2))) 0 false
    (map (λ p, (MySQLObserver.pseq p, Some p))
         [MySQLObserver.mkProcess 1; MySQLObserver.mkProcess 2])
  = MySQLObserver.Exited true.
Proof.
  refine (proj2 (wait_for_exit_detects_dead 0
                   (λ i, MySQLObserver.mkWorld false (λ p, negb (p =? 2))) 0
                   [MySQLObserver.mkProcess 1; MySQLObserver.mkProcess 2] _ _) _).
  - discriminate.
  - reflexivity.
  - exists (MySQLObserver.mkProcess 2). split; [|reflexivity].
    right. by left.
Defined.

(** X20. Without workers the supervisor loop never raises: it is left, with
    [exit_signal] set, at the first reading at which an exit is requested,
    and goes on as long as there is none. So with [n_workers] at most 1 the
    pool starts nobody and only waits for the exit. *)
Theorem wait_for_exit_idle :
  ∀ (rounds : nat) (world : nat → MySQLObserver.World) (i : nat),
    ((∀ j, (j < rounds)%nat →
           MySQLObserver.exit_requested (world (i + j)%nat) = false) →
     MySQLObserver._wait_for_exit rounds world i false []
       = MySQLObserver.Running false)
    ∧ ((∃ j, (j < rounds)%nat
             ∧ MySQLObserver.exit_requested (world (i + j)%nat) = true) →
       MySQLObserver._wait_for_exit rounds world i false []
         = MySQLObserver.Exited true)
    ∧ (∀ n_workers, n_workers ≤ 1 →
         MySQLObserver.pool_on_data_received rounds world n_workers
           = MySQLObserver._wait_for_exit rounds world 0 false []).
Proof.
  intros rounds world i. split; [|split].
  - revert i. induction rounds as [|rounds IH]; intros i Hnone; [done|].
    cbn [MySQLObserver._wait_for_exit].
    specialize (Hnone 0%nat ltac:(lia)) as H0. rewrite Nat.add_0_r in H0.
    rewrite H0. cbn. apply IH. intros j Hj.
    replace (S i + j)%nat with (i + S j)%nat by lia. apply Hnone. lia.
  - revert i. induction rounds as [|rounds IH]; intros i (j & Hj & Hreq); [lia|].
    cbn [MySQLObserver._wait_for_exit].
    destruct (MySQLObserver.exit_requested (world i)) eqn:H0; [done|]. cbn.
    apply IH. destruct j as [|j].
    + rewrite Nat.add_0_r in Hreq. congruence.
    + exists j. split; [lia|].
      by replace (S i + j)%nat with (i + S j)%nat by lia.
  - intros n Hn. unfold MySQLObserver.pool_on_data_received.
    assert (MySQLObserver.spawn_workers n = []) as ->; [|done].
    apply length_zero_iff_nil. unfold MySQLObserver.spawn_workers.
    rewrite length_map, length_seqZ. lia.
Qed.

(** X21. What [pool_on_data_received] does within its first round, for
    every pool size and every course of events: if an exit is already
    requested it returns at once; otherwise, as soon as it has started a
    worker ([n_workers] at least 2), its first poll raises [AttributeError]
    and [exit_signal] stays unset, whether the workers are alive or not. *)
Theorem pool_first_round :
  ∀ (rounds : nat) (world : nat → MySQLObserver.World) (n_workers : Z),
    (MySQLObserver.exit_requested (world 0%nat) = true →
     MySQLObserver.pool_on_data_received (S rounds) world n_workers
       = MySQLObserver.Exited true)
    ∧ (MySQLObserver.exit_requested (world 0%nat) = false →
       2 ≤ n_workers →
       MySQLObserver.pool_on_data_received (S rounds) world n_workers
         = MySQLObserver.Crashed AttributeError false).
Proof.
  intros rounds world n. split.
  - intros Hreq. unfold MySQLObserver.pool_on_data_received. cbn.
    by rewrite Hreq.
  - intros Hreq Hn. by apply supervisor_crashes.
Qed.

(** ** When [add] raises, and what a shape tells *)

Lemma existsb_truthy_false (l : list Z) :
  existsb truthy_int l = false ↔ Forall (λ x, x = 0) l.
Proof.
  induction l as [|x l IH]; cbn; [by split|].
  rewrite orb_false_iff, IH, Forall_cons. unfold truthy_int.
  rewrite negb_false_iff, Z.eqb_eq. done.
Qed.

Lemma existsb_truthy_true (l : list Z) :
  existsb truthy_int l = true ↔ Exists (λ x, x ≠ 0) l.
Proof.
  induction l as [|x l IH]; cbn.
  - split; [done|]. by intros ?%Exists_nil.
  - rewrite orb_true_iff, IH, Exists_cons. unfold truthy_int.
    rewrite negb_true_iff, Z.eqb_neq. done.
Qed.

(** X22. [add] raises only [TypeError], and exactly in two cases: [rss] is
    [None], or [rss] holds no non-zero sample (it may be empty) while
    [otap_sequence] is [None]. In every other case it returns. *)
Theorem add_raises_iff :
  ∀ (inv : Inventory.t) (a : Z) (rss otap : option (list Z)) (ts : option Z),
    ((Inventory.add inv a rss otap ts).2 = Ok tt
     ∨ (Inventory.add inv a rss otap ts).2 = Raise TypeError)
    ∧ ((Inventory.add inv a rss otap ts).2 = Raise TypeError ↔
         rss = None
         ∨ (∃ r, rss = Some r ∧ Forall (λ x, x = 0) r ∧ otap = None)).
Proof.
  intros inv a rss otap ts.
  assert ((∃ ev, Inventory.make_event rss otap = Ok ev
                 ∧ ¬ (rss = None
                      ∨ ∃ r, rss = Some r ∧ Forall (λ x, x = 0) r ∧ otap = None))
          ∨ (Inventory.make_event rss otap = Raise TypeError
             ∧ (rss = None
                ∨ ∃ r, rss = Some r ∧ Forall (λ x, x = 0) r ∧ otap = None)))
    as [(ev & Hev & Hnot)|[Hev Hcase]].
  { destruct rss as [r|].
    2: { right. split; [apply make_event_rss_None|by left]. }
    destruct (existsb truthy_int r) eqn:Hany.
    - left. assert (¬ Forall (λ x, x = 0) r) as Hnz.
      { intros ?%existsb_truthy_false. congruence. }
      destruct otap as [[|y o]|]; cbn; rewrite ?Hany.
      + eexists. split; [done|]. intros [?|(r' & [= <-] & ? & _)]; done.
      + destruct (truthy_int (foldl Z.min y o) && truthy_int (foldl Z.max y o));
          cbn; rewrite ?Hany; cbn; eexists;
          (split; [done|]); intros [?|(r' & [= <-] & ? & _)]; done.
      + eexists. split; [done|]. intros [?|(r' & [= <-] & ? & _)]; done.
    - destruct otap as [[|y o]|]; cbn; rewrite ?Hany; cbn.
      + left. eexists. split; [done|]. intros [?|(r' & _ & _ & ?)]; done.
      + left.
        destruct (truthy_int (foldl Z.min y o) && truthy_int (foldl Z.max y o));
          cbn; rewrite ?Hany; cbn;
          destruct (truthy_int y || existsb truthy_int o); cbn; eexists;
          (split; [done|]); intros [?|(r' & _ & _ & ?)]; done.
      + right. split; [done|]. right. exists r.
        split; [done|]. split; [by apply existsb_truthy_false|done]. }
  - rewrite (add_ok _ _ _ _ _ _ Hev). cbn. split; [by left|]. by split.
  - rewrite (add_raise _ _ _ _ _ _ Hev). cbn. split; [by right|]. by split.
Qed.

(** X23. The shape of the event that [add] builds tells what the samples
    were: a both-shape event comes from a non-zero RSS sample and an OTAP
    sequence whose least and greatest element are not zero (and are the
    stored [otap_min] and [otap_max]); an RSS-only event from a non-zero
    RSS sample; an OTAP-only event from RSS samples that are all zero and
    an OTAP sequence with a non-zero element; a neither-shape event from
    samples that are all zero. *)
Theorem event_shape_meaning :
  ∀ (r : list Z) (otap : option (list Z)) (ev : Inventory.Event),
    Inventory.make_event (Some r) otap = Ok ev →
    match Inventory.shape ev with
    | Inventory.Both =>
        Exists (λ x, x ≠ 0) r
        ∧ ∃ y o, otap = Some (y :: o)
                 ∧ Inventory.get_otap_min ev = Ok (foldl Z.min y o)
                 ∧ Inventory.get_otap_max ev = Ok (foldl Z.max y o)
                 ∧ foldl Z.min y o ≠ 0 ∧ foldl Z.max y o ≠ 0
    | Inventory.RssOnly => Exists (λ x, x ≠ 0) r
    | Inventory.OtapOnly =>
        Forall (λ x, x = 0) r
        ∧ ∃ y o, otap = Some (y :: o)
                 ∧ Exists (λ x, x ≠ 0) (y :: o)
                 ∧ Inventory.get_otap_min ev = Ok (foldl Z.min y o)
                 ∧ Inventory.get_otap_max ev = Ok (foldl Z.max y o)
    | Inventory.Neither =>
        Forall (λ x, x = 0) r
        ∧ ∃ o, otap = Some o ∧ Forall (λ x, x = 0) o
    end.
Proof.
  intros r otap ev.
  destruct (existsb truthy_int r) eqn:Hany.
  - pose proof (proj1 (existsb_truthy_true r) Hany) as Hnz.
    destruct otap as [[|y o]|]; cbn; rewrite ?Hany; cbn.
    + by intros [= <-].
    + destruct (truthy_int (foldl Z.min y o)) eqn:Hmn;
        destruct (truthy_int (foldl Z.max y o)) eqn:Hmx;
        cbn; rewrite ?Hany; cbn; intros [= <-]; cbn; try done.
      split; [done|]. exists y, o. repeat split.
      * apply negb_true_iff, Z.eqb_neq in Hmn. done.
      * apply negb_true_iff, Z.eqb_neq in Hmx. done.
    + by intros [= <-].
  - pose proof (proj1 (existsb_truthy_false r) Hany) as Hz.
    destruct otap as [[|y o]|]; cbn; rewrite ?Hany; cbn.
    + intros [= <-]. cbn. split; [done|]. by exists [].
    + destruct (truthy_int (foldl Z.min y o) && truthy_int (foldl Z.max y o));
        cbn; rewrite ?Hany; cbn;
        destruct (truthy_int y || existsb truthy_int o) eqn:Ho; cbn;
        intros [= <-]; cbn; (split; [done|]).
      * exists y, o. repeat split. by apply (existsb_truthy_true (y :: o)).
      * exists (y :: o). split; [done|]. by apply (existsb_truthy_false (y :: o)).
      * exists y, o. repeat split. by apply (existsb_truthy_true (y :: o)).
      * exists (y :: o). split; [done|]. by apply (existsb_truthy_false (y :: o)).
    + done.
Qed.

Lemma event_shape_meaning_witness :
  Forall (λ x, x = 0) [0; 0]
  ∧ ∃ y o, Some [0; 4] = Some (y :: o)
           ∧ Exists (λ x, x ≠ 0) (y :: o)
           ∧ Inventory.get_otap_min (Inventory.EvOtap (Some [0; 4]) 4 0)
               = Ok (foldl Z.min y o)
           ∧ Inventory.get_otap_max (Inventory.EvOtap (Some [0; 4]) 4 0)
               = Ok (foldl Z.max y o).
Proof.
  apply (event_shape_meaning [0; 0] (Some [0; 4])
           (Inventory.EvOtap (Some [0; 4]) 4 0)).
  reflexivity.
Defined.

(** ** Looking up a frequency *)

Lemma frequency_reported (inv : Inventory.t) :
  (truthy_opt_int (Inventory._target_otap_sequence inv) = true →
   ∀ a, a ∈ dom (Inventory._index inv) →
        ∃ ev m, latest_event inv a = Some ev ∧ Inventory.get_otap_max ev = Ok m) →
  ∃ keys : list Z,
    Inventory.frequency inv = Ok (map (λ a, (a, reported_value inv a)) keys)
    ∧ NoDup keys
    ∧ ∀ a, a ∈ keys ↔
           a ∈ dom (Inventory._index inv) ∨ a ∈ Inventory._target_nodes inv.
Proof.
  intros Hmax.
  set (ks := sorted (elements (dom (Inventory._index inv)))).
  set (ms := filter (λ a, a ∉ ks) (elements (Inventory._target_nodes inv))).
  exists (ks ++ ms). split; [|split].
  - rewrite (frequency_eq inv Hmax). fold ks ms. rewrite map_app.
    do 2 f_equal.
    + apply map_ext_in.
      intros a Ha%list_elem_of_In%sorted_elem_of%elem_of_elements.
      unfold reported_value. by rewrite bool_decide_eq_true_2.
    + apply map_ext_in. intros a [Ha _]%list_elem_of_In%list_elem_of_filter.
      unfold reported_value. rewrite bool_decide_eq_false_2; [done|].
      intros Hd. by apply Ha, sorted_elem_of, elem_of_elements.
  - apply NoDup_app. split; [apply sorted_NoDup, NoDup_elements|].
    split; [|apply NoDup_filter, NoDup_elements].
    by intros a Ha [Hnot _]%list_elem_of_filter.
  - intros a. unfold ms, ks.
    rewrite elem_of_app, list_elem_of_filter, sorted_elem_of, !elem_of_elements.
    destruct (decide (a ∈ dom (Inventory._index inv))); tauto.
Qed.

(** X24. When every value can be read, looking an address up in the
    mapping that [frequency] returns gives the value of the node if it has a
    record in [_index], [0] if it is a target node without a record, and
    raises [KeyError] for any other address, an observed node that is not a
    target and has no record (its calls of [add] raised) included. *)
Theorem frequency_lookup :
  ∀ inv : Inventory.t,
    (truthy_opt_int (Inventory._target_otap_sequence inv) = true →
     ∀ a, a ∈ dom (Inventory._index inv) →
          ∃ ev m, latest_event inv a = Some ev
                  ∧ Inventory.get_otap_max ev = Ok m) →
    ∃ d : list (Z * Z),
      Inventory.frequency inv = Ok d
      ∧ NoDup d.*1
      ∧ (∀ a, a ∈ dom (Inventory._index inv) →
              dict_get d a = Ok (frequency_value inv a))
      ∧ (∀ a, a ∈ Inventory._target_nodes inv →
              a ∉ dom (Inventory._index inv) → dict_get d a = Ok 0)
      ∧ (∀ a, a ∉ dom (Inventory._index inv) →
              a ∉ Inventory._target_nodes inv →
              dict_get d a = Raise KeyError)
      ∧ (∀ a, a ∈ Inventory._nodes inv →
              a ∉ dom (Inventory._index inv) →
              a ∉ Inventory._target_nodes inv →
              dict_get d a = Raise KeyError).
Proof.
  intros inv Hmax.
  destruct (frequency_reported inv Hmax) as (keys & Hfreq & Hnd & Hkeys).
  eexists. split; [exact Hfreq|]. rewrite fmap_fst_graph.
  assert (∀ a, a ∈ keys →
            dict_get (map (λ a, (a, reported_value inv a)) keys) a
              = Ok (reported_value inv a)) as Hget.
  { intros a Ha. apply dict_get_NoDup; [by rewrite fmap_fst_graph|].
    apply list_elem_of_fmap. by exists a. }
  split; [done|]. split; [|split; [|split]].
  - intros a Ha. rewrite Hget by (apply Hkeys; by left).
    unfold reported_value. by rewrite bool_decide_eq_true_2.
  - intros a Ht Hd. rewrite Hget by (apply Hkeys; by right).
    unfold reported_value. by rewrite bool_decide_eq_false_2.
  - intros a Hd Ht. apply dict_get_missing. rewrite fmap_fst_graph, Hkeys.
    tauto.
  - intros a _ Hd Ht. apply dict_get_missing. rewrite fmap_fst_graph, Hkeys.
    tauto.
Qed.

Lemma frequency_lookup_witness :
  ∃ d : list (Z * Z),
    Inventory.frequency session_otaped = Ok d ∧ NoDup d.*1.
Proof.
  destruct (frequency_lookup session_otaped session_otaped_readable)
    as (d & Hd & Hnd & _).
  exists d. by split.
Defined.
